(** * Process ID management (kern/thread/pid.c)

    A shallow embedding of the pid table of the kernel and of the
    operations that work on it: [pid_bootstrap], [pid_alloc],
    [pid_unalloc], [pid_detach], [pid_exit], [pid_join] and the helper
    [target_parent], together with the static helpers they are built
    from.  The operations are written in a small state monad whose
    results distinguish a normal return, a kernel panic or memory fault,
    and a suspension on a condition variable.

    The model follows one thread through one call at a time: the table
    lock is a counter of what the thread has acquired and not released,
    and other threads only come in where the caller sleeps in [cv_wait]
    and is woken in a later state. *)

From stdpp Require Import base list.
From Stdlib Require Import ZArith Lia Bool.

Local Open Scope Z_scope.

(** ** Constants of the kernel headers

    [pid.c] takes its limits, the two reserved pids, the wait flag and
    the error numbers from headers (limits.h, pid.h, kern/wait.h,
    kern/errno.h).  They are parameters of the development. *)

Class limits := Limits {
  PROCS_MAX : Z;
  PID_MIN : Z;
  PID_MAX : Z;
  INVALID_PID : Z;
  BOOTUP_PID : Z;
  WNOHANG : Z;
  EAGAIN : Z;
  ENOMEM : Z;
  EINVAL : Z;
  ESRCH : Z;
  EDEADLK : Z
}.

(** What the code relies on about them: the reserved pids lie outside
    the allocatable range, the range offers at least one pid per slot,
    everything fits a 32-bit [int], and the error numbers are positive
    and told apart. *)
Record limits_ok `{limits} : Prop := LimitsOk {
  procs_pos : 0 < PROCS_MAX;
  procs_int : PROCS_MAX * 2 + 5 < 2 ^ 31;
  pid_min_nonneg : 0 <= PID_MIN;
  pid_range_wide : PID_MIN + PROCS_MAX - 1 <= PID_MAX;
  pid_max_int : PID_MAX < 2 ^ 31 - 1;
  invalid_outside : INVALID_PID < PID_MIN \/ PID_MAX < INVALID_PID;
  bootup_outside : BOOTUP_PID < PID_MIN \/ PID_MAX < BOOTUP_PID;
  bootup_slot : 0 <= BOOTUP_PID < PROCS_MAX;
  bootup_valid : BOOTUP_PID <> INVALID_PID;
  errno_pos : 0 < EAGAIN /\ 0 < ENOMEM /\ 0 < EINVAL /\ 0 < ESRCH /\ 0 < EDEADLK;
  errno_alloc : EAGAIN <> ENOMEM;
  errno_lookup : EINVAL <> ESRCH
}.

(** ** Data *)

(** [struct pidinfo].  The wait channel [pi_cv] is a handle into the
    condition variables of synch.c; what it does to a caller is
    modelled by [cv_wait] below. *)
Record pidinfo := PidInfo {
  pi_pid : Z;
  pi_ppid : Z;
  pi_exited : bool;
  pi_exitstatus : Z;
  detached : bool
}.

Definition set_pid (v : Z) (pi : pidinfo) : pidinfo :=
  PidInfo v (pi_ppid pi) (pi_exited pi) (pi_exitstatus pi) (detached pi).
Definition set_ppid (v : Z) (pi : pidinfo) : pidinfo :=
  PidInfo (pi_pid pi) v (pi_exited pi) (pi_exitstatus pi) (detached pi).
Definition set_exited (v : bool) (pi : pidinfo) : pidinfo :=
  PidInfo (pi_pid pi) (pi_ppid pi) v (pi_exitstatus pi) (detached pi).
Definition set_exitstatus (v : Z) (pi : pidinfo) : pidinfo :=
  PidInfo (pi_pid pi) (pi_ppid pi) (pi_exited pi) v (detached pi).
Definition set_detached (v : bool) (pi : pidinfo) : pidinfo :=
  PidInfo (pi_pid pi) (pi_ppid pi) (pi_exited pi) (pi_exitstatus pi) v.

(** The file-level variables.  [pidinfo_tbl] is the array
    [pidinfo[PROCS_MAX]]: a slot holds [None] for a NULL pointer and
    the record it points to otherwise (every record is owned by exactly
    one slot).  [pidlock] counts the acquisitions of the table lock by
    the running thread that have not been released.  [freed] is a
    ghost log: the records handed to [kfree] by [pidinfo_destroy], as
    they were at that moment, most recent first. *)
Record kstate := KState {
  pidinfo_tbl : list (option pidinfo);
  nextpid : Z;
  nprocs : Z;
  pidlock : nat;
  freed : list pidinfo
}.

(** A pointer to a record that sits in the table is the index of its
    slot. *)
Definition ptr := Z.

(** Ways in which a call does not return. *)
Inductive fault :=
| KAssert (line : nat)   (* the KASSERT on that source line failed *)
| Panic                  (* panic() *)
| NullDeref              (* access through a NULL pointer *)
| DanglingDeref          (* access through a pointer to a freed record *)
| OutOfBounds            (* index outside pidinfo[] *)
| LockNotHeld.           (* release of a lock the thread does not hold *)

(** The result of running an operation: it returned [a] in state [s],
    it stopped with a fault, or it went to sleep in state [s] and goes
    on as [k s'] when woken in state [s']. *)
Inductive res (A : Type) :=
| Done (a : A) (s : kstate)
| Abort (f : fault)
| Blocked (s : kstate) (k : kstate -> res A).
Arguments Done {A} a s.
Arguments Abort {A} f.
Arguments Blocked {A} s k.

Definition M (A : Type) : Type := kstate -> res A.

Fixpoint res_bind {A B} (r : res A) (f : A -> M B) : res B :=
  match r with
  | Done a s => f a s
  | Abort e => Abort e
  | Blocked s k => Blocked s (fun s' => res_bind (k s') f)
  end.

Definition ret {A} (a : A) : M A := fun s => Done a s.
Definition bind {A B} (m : M A) (f : A -> M B) : M B :=
  fun s => res_bind (m s) f.
Definition abort {A} (e : fault) : M A := fun _ => Abort e.

Declare Scope kern_scope.
Delimit Scope kern_scope with kern.
Notation "'do' x <- m ; k" := (bind m (fun x => k))
  (at level 10, x name, m at level 100, k at level 200) : kern_scope.
Notation "m ;; k" := (bind m (fun _ => k))
  (at level 100, k at level 200, right associativity) : kern_scope.
Local Open Scope kern_scope.

(** 32-bit two's complement wrap-around of [int] and [pid_t]. *)
Definition int_wrap (z : Z) : Z := (z + 2 ^ 31) mod 2 ^ 32 - 2 ^ 31.

Section PidTable.
Context `{L : limits}.

(** ** Primitives *)

Definition KASSERT (line : nat) (b : bool) : M unit :=
  fun s => if b then Done tt s else Abort (KAssert line).

Definition lock_acquire : M unit :=
  fun s => Done tt (KState (pidinfo_tbl s) (nextpid s) (nprocs s)
                           (S (pidlock s)) (freed s)).

Definition lock_release : M unit :=
  fun s => match pidlock s with
           | O => Abort LockNotHeld
           | S n => Done tt (KState (pidinfo_tbl s) (nextpid s) (nprocs s)
                                    n (freed s))
           end.

Definition lock_do_i_hold : M bool :=
  fun s => Done (negb (Nat.eqb (pidlock s) 0)) s.

(** [cv_wait(cv, lock)]: give up the lock, sleep until woken, take the
    lock again. *)
Definition sleep : M unit := fun s => Blocked s (fun s' => Done tt s').
Definition cv_wait : M unit := lock_release ;; sleep ;; lock_acquire.

(** [cv_broadcast] wakes the sleepers; it leaves the table alone. *)
Definition cv_broadcast : M unit := ret tt.

(** [pidinfo[i]] read and written; an index outside the array is a
    fault. *)
Definition tbl_read (i : Z) : M (option pidinfo) :=
  fun s => if i <? 0 then Abort OutOfBounds else
           match pidinfo_tbl s !! Z.to_nat i with
           | Some e => Done e s
           | None => Abort OutOfBounds
           end.

Definition tbl_write (i : Z) (e : option pidinfo) : M unit :=
  fun s => if i <? 0 then Abort OutOfBounds else
           match pidinfo_tbl s !! Z.to_nat i with
           | Some _ => Done tt (KState (<[Z.to_nat i := e]> (pidinfo_tbl s))
                                       (nextpid s) (nprocs s) (pidlock s) (freed s))
           | None => Abort OutOfBounds
           end.

(** [p->field] read and [p->field = v] for a pointer into the table. *)
Definition load (p : ptr) : M pidinfo :=
  do e <- tbl_read p;
  match e with
  | Some pi => ret pi
  | None => abort DanglingDeref
  end.

Definition store (p : ptr) (f : pidinfo -> pidinfo) : M unit :=
  do pi <- load p; tbl_write p (Some (f pi)).

Definition get_nextpid : M Z := fun s => Done (nextpid s) s.
Definition set_nextpid (v : Z) : M unit :=
  fun s => Done tt (KState (pidinfo_tbl s) v (nprocs s) (pidlock s) (freed s)).
Definition get_nprocs : M Z := fun s => Done (nprocs s) s.
Definition set_nprocs (v : Z) : M unit :=
  fun s => Done tt (KState (pidinfo_tbl s) (nextpid s) v (pidlock s) (freed s)).

Definition kfree (pi : pidinfo) : M unit :=
  fun s => Done tt (KState (pidinfo_tbl s) (nextpid s) (nprocs s) (pidlock s)
                           (pi :: freed s)).

(** [pid % PROCS_MAX], C's remainder. *)
Definition slot (pid : Z) : Z := Z.rem pid PROCS_MAX.

(** ** The static helpers *)

(** [pidinfo_create].  [km] is what [kmalloc] hands out: [None] for
    NULL, otherwise a block with whatever bytes it holds, read as a
    record; [cv] tells whether [cv_create] succeeds.  The function
    assigns four fields and the wait channel; [detached] keeps the value
    found in the block. *)
Definition pidinfo_create (pid ppid : Z) (km : option pidinfo) (cv : bool)
  : M (option pidinfo) :=
  KASSERT 87 (negb (pid =? INVALID_PID)) ;;
  match km with
  | None => ret None
  | Some blk =>
      if negb cv then ret None
      else ret (Some (set_exitstatus 47789 (* 0xbaad *)
                       (set_exited false (set_ppid ppid (set_pid pid blk)))))
  end.

Definition pidinfo_destroy (pi : pidinfo) : M unit :=
  KASSERT 115 (pi_exited pi) ;;
  KASSERT 116 (pi_ppid pi =? INVALID_PID) ;;
  kfree pi.

Definition pi_get (pid : Z) : M (option ptr) :=
  KASSERT 159 (0 <=? pid) ;;
  KASSERT 160 (negb (pid =? INVALID_PID)) ;;
  do held <- lock_do_i_hold;
  KASSERT 161 held ;;
  do pi <- tbl_read (slot pid);
  match pi with
  | None => ret None
  | Some r => if negb (pi_pid r =? pid) then ret None
              else ret (Some (slot pid))
  end.

Definition pi_put (pid : Z) (pi : pidinfo) : M unit :=
  do held <- lock_do_i_hold;
  KASSERT 181 held ;;
  KASSERT 183 (negb (pid =? INVALID_PID)) ;;
  do cur <- tbl_read (slot pid);
  KASSERT 185 (match cur with None => true | Some _ => false end) ;;
  tbl_write (slot pid) (Some pi) ;;
  do n <- get_nprocs;
  set_nprocs (int_wrap (n + 1)).

Definition pi_drop (pid : Z) : M unit :=
  do held <- lock_do_i_hold;
  KASSERT 201 held ;;
  do pi <- tbl_read (slot pid);
  match pi with
  | None => abort (KAssert 204)
  | Some r =>
      KASSERT 205 (pi_pid r =? pid) ;;
      pidinfo_destroy r ;;
      tbl_write (slot pid) None ;;
      do n <- get_nprocs;
      set_nprocs (int_wrap (n - 1))
  end.

Definition inc_nextpid : M unit :=
  do held <- lock_do_i_hold;
  KASSERT 221 held ;;
  do n <- get_nextpid;
  set_nextpid (int_wrap (n + 1)) ;;
  do n' <- get_nextpid;
  if n' >? PID_MAX then set_nextpid PID_MIN else ret tt.

(** ** Allocation *)

(** The probing loop of [pid_alloc].  [count] starts at 0 and the
    KASSERT wants [count < PROCS_MAX*2+5] before each further step, so
    the loop is written over [budget], the steps still allowed:
    [PROCS_MAX*2+5 - count]. *)
Fixpoint alloc_scan (budget : nat) : M unit :=
  do n <- get_nextpid;
  do e <- tbl_read (slot n);
  match e with
  | None => ret tt
  | Some _ =>
      match budget with
      | O => abort (KAssert 258)
      | S budget' => inc_nextpid ;; alloc_scan budget'
      end
  end.

(** [pid_alloc].  [me] is [curthread->t_pid].  The result pairs the
    returned code with what was stored through [retval], if anything. *)
Definition pid_alloc (me : Z) (km : option pidinfo) (cv : bool)
  : M (Z * option Z) :=
  KASSERT 239 (negb (me =? INVALID_PID)) ;;
  lock_acquire ;;
  do n <- get_nprocs;
  if n =? PROCS_MAX then
    lock_release ;; ret (EAGAIN, None)
  else
    alloc_scan (Z.to_nat (PROCS_MAX * 2 + 5)) ;;
    do pid <- get_nextpid;
    do pi <- pidinfo_create pid me km cv;
    match pi with
    | None => lock_release ;; ret (ENOMEM, None)
    | Some r =>
        pi_put pid r ;;
        inc_nextpid ;;
        lock_release ;;
        ret (0, Some pid)
    end.

(** [pid_unalloc]. *)
Definition pid_unalloc (me : Z) (theirpid : Z) : M unit :=
  KASSERT 291 ((PID_MIN <=? theirpid) && (theirpid <=? PID_MAX)) ;;
  lock_acquire ;;
  do them <- pi_get theirpid;
  match them with
  | None => abort (KAssert 296)
  | Some p =>
      do r <- load p;
      KASSERT 297 (negb (pi_exited r)) ;;
      do r <- load p;
      KASSERT 298 (pi_ppid r =? me) ;;
      store p (set_exitstatus 57005 (* 0xdead *)) ;;
      store p (set_exited true) ;;
      store p (set_ppid INVALID_PID) ;;
      pi_drop theirpid ;;
      lock_release
  end.

(** ** Detach, exit, join *)

Definition pid_detach (me : Z) (childpid : Z) : M Z :=
  lock_acquire ;;
  if (childpid =? INVALID_PID) || (childpid =? BOOTUP_PID) || (childpid <? PID_MIN)
  then lock_release ;; ret (- EINVAL)
  else
    do child_pid <- pi_get childpid;
    match child_pid with
    | None => lock_release ;; ret (- ESRCH)
    | Some p =>
        do r <- load p;
        if pi_ppid r =? INVALID_PID then lock_release ;; ret (- EINVAL)
        else
          do r <- load p;
          if negb (pi_ppid r =? me) then lock_release ;; ret (- EINVAL)
          else
            store p (set_ppid INVALID_PID) ;;
            store p (set_detached true) ;;
            do r <- load p;
            (if pi_exited r
             then do r <- load p; pi_drop (pi_pid r)
             else ret tt) ;;
            lock_release ;;
            ret 0
    end.

(** [for (i = from; ...; i++) body(i)], run [n] times. *)
Fixpoint for_loop (n : nat) (from : Z) (body : Z -> M unit) : M unit :=
  match n with
  | O => ret tt
  | S n' => body from ;; for_loop n' (from + 1) body
  end.

(** One round of the loop of [pid_exit] over the candidate pid [i];
    [my_pi] points to the record of the exiting thread. *)
Definition disown_child (me : Z) (my_pi : ptr) (i : Z) : M unit :=
  do this_pid <- pi_get i;
  match this_pid with
  | None => ret tt
  | Some q =>
      do c <- load q;
      do m <- load my_pi;
      if pi_ppid c =? pi_pid m then
        lock_release ;;
        do c <- load q;
        do _ <- pid_detach me (pi_pid c);
        lock_acquire ;;
        store q (set_detached true)
      else ret tt
  end.

(** [pid_exit].  The loop runs [i] from [PID_MIN] while [i < PID_MAX]. *)
Definition pid_exit (me : Z) (status : Z) (dodetach : bool) : M unit :=
  lock_acquire ;;
  do my_pi <- pi_get me;
  match my_pi with
  | None => abort (KAssert 384)
  | Some p =>
      store p (set_exited true) ;;
      store p (set_exitstatus status) ;;
      (if dodetach
       then for_loop (Z.to_nat (PID_MAX - PID_MIN)) PID_MIN (disown_child me p)
       else ret tt) ;;
      cv_broadcast ;;
      do m <- load p;
      (if detached m
       then store p (set_ppid INVALID_PID) ;;
            do m <- load p;
            pi_drop (pi_pid m)
       else ret tt) ;;
      lock_release
  end.

(** [*status = v].  The destination is [None] for a NULL pointer and
    holds the current contents of the cell otherwise. *)
Definition write_status (status : option Z) (v : Z) : M (option Z) :=
  match status with
  | None => abort NullDeref
  | Some _ => ret (Some v)
  end.

(** [pid_join].  The result pairs the returned value with the contents
    of the status cell afterwards. *)
Definition pid_join (me : Z) (targetpid : Z) (status : option Z) (flags : Z)
  : M (Z * option Z) :=
  lock_acquire ;;
  if (targetpid =? INVALID_PID) || (targetpid =? BOOTUP_PID)
     || (targetpid <? PID_MIN) || (targetpid >? PID_MAX)
  then lock_release ;; ret (- EINVAL, status)
  else
    do target_pid <- pi_get targetpid;
    match target_pid with
    | None => lock_release ;; ret (- ESRCH, status)
    | Some p =>
        do r <- load p;
        if pi_ppid r =? INVALID_PID then lock_release ;; ret (- EINVAL, status)
        else if targetpid =? me then lock_release ;; ret (- EDEADLK, status)
        else
          let finish :=
            do status' <-
              match status with
              | Some _ => do r <- load p; write_status status (pi_exitstatus r)
              | None => ret status
              end;
            lock_release ;;
            ret (targetpid, status') in
          do r <- load p;
          if negb (pi_exited r) then
            if flags =? WNOHANG then
              do status' <- write_status status 0;
              lock_release ;;
              ret (0, status')
            else
              cv_wait ;; finish
          else finish
    end.

(** [target_parent]. *)
Definition target_parent (targetpid : Z) (parentpid : Z) : M Z :=
  lock_acquire ;;
  do target_pid <- pi_get targetpid;
  match target_pid with
  | None => abort NullDeref
  | Some p =>
      do r <- load p;
      if pi_ppid r =? parentpid then lock_acquire ;; ret 1
      else lock_acquire ;; ret 0
  end.

(** ** Bootstrap *)

(** The static storage before [pid_bootstrap] runs: zeroed. *)
Definition zeroed : kstate :=
  KState (replicate (Z.to_nat PROCS_MAX) None) 0 0 0 [].

(** [pid_bootstrap].  [lk] tells whether [lock_create] succeeds. *)
Definition pid_bootstrap (lk : bool) (km : option pidinfo) (cv : bool) : M unit :=
  (if negb lk then abort Panic else ret tt) ;;
  for_loop (Z.to_nat PROCS_MAX) 0 (fun i => tbl_write i None) ;;
  do pi <- pidinfo_create BOOTUP_PID INVALID_PID km cv;
  tbl_write BOOTUP_PID pi ;;
  do e <- tbl_read BOOTUP_PID;
  match e with
  | None => abort Panic
  | Some _ => set_nextpid PID_MIN ;; set_nprocs 1
  end.

End PidTable.

(** * Looking at a state *)

Section Views.
Context `{L : limits}.

(** The record the table holds for [pid], as [pi_get] finds it. *)
Definition record_of (s : kstate) (pid : Z) : option pidinfo :=
  match pidinfo_tbl s !! Z.to_nat (slot pid) with
  | Some (Some r) => if pi_pid r =? pid then Some r else None
  | _ => None
  end.

(** The records of the occupied slots, and how many there are. *)
Definition live (s : kstate) : list pidinfo := omap id (pidinfo_tbl s).

Fixpoint occupied (t : list (option pidinfo)) : nat :=
  match t with
  | [] => O
  | Some _ :: t' => S (occupied t')
  | None :: t' => occupied t'
  end.

Definition live_count (s : kstate) : Z := Z.of_nat (occupied (pidinfo_tbl s)).

(** What must hold of the record found in slot [i]: it sits in the
    slot of its pid, and it is either a pid of the allocatable range or
    the bootstrap record, which has no parent. *)
Definition slot_ok (i : nat) (r : pidinfo) : Prop :=
  0 <= pi_pid r /\ slot (pi_pid r) = Z.of_nat i /\
  (PID_MIN <= pi_pid r <= PID_MAX \/
   (pi_pid r = BOOTUP_PID /\ pi_ppid r = INVALID_PID)).

(** The invariant of the table between operations. *)
Record wf (s : kstate) : Prop := Wf {
  wf_len : length (pidinfo_tbl s) = Z.to_nat PROCS_MAX;
  wf_slots : forall (i : nat) r, pidinfo_tbl s !! i = Some (Some r) -> slot_ok i r;
  wf_count : nprocs s = live_count s;
  wf_next : PID_MIN <= nextpid s <= PID_MAX
}.

(** The table and counters of a state, without lock and log. *)
Definition with_lock (n : nat) (s : kstate) : kstate :=
  KState (pidinfo_tbl s) (nextpid s) (nprocs s) n (freed s).
Definition with_tbl (t : list (option pidinfo)) (s : kstate) : kstate :=
  KState t (nextpid s) (nprocs s) (pidlock s) (freed s).

(** What the operations do to a state, written as functions. *)

(** The record in slot [i] replaced by [r]. *)
Definition put_state (i : Z) (r : pidinfo) (s : kstate) : kstate :=
  with_tbl (<[Z.to_nat i := Some r]> (pidinfo_tbl s)) s.

(** [pi_drop] of the record [r] in slot [i]: logged as freed, the slot
    cleared, one process less. *)
Definition drop_state (i : Z) (r : pidinfo) (s : kstate) : kstate :=
  KState (<[Z.to_nat i := None]> (pidinfo_tbl s)) (nextpid s)
         (int_wrap (nprocs s - 1)) (pidlock s) (r :: freed s).

(** A successful [pid_detach] of the child [x] whose record is [r]. *)
Definition detach_state (x : Z) (r : pidinfo) (s : kstate) : kstate :=
  let r' := set_detached true (set_ppid INVALID_PID r) in
  if pi_exited r then drop_state (slot x) r' s else put_state (slot x) r' s.

(** The cursor after [inc_nextpid], for a cursor [n] of the range. *)
Definition next (n : Z) : Z := if n + 1 >? PID_MAX then PID_MIN else n + 1.

(** [k] steps of the cursor. *)
Fixpoint advance (k : nat) (n : Z) : Z :=
  match k with
  | O => n
  | S k' => advance k' (next n)
  end.

(** The pid the probing loop of [pid_alloc] stops at, if it finds an
    empty slot within [budget] further steps from the cursor [n]. *)
Fixpoint probe (budget : nat) (t : list (option pidinfo)) (n : Z) : option Z :=
  match t !! Z.to_nat (slot n) with
  | Some None => Some n
  | _ => match budget with
         | O => None
         | S budget' => probe budget' t (next n)
         end
  end.

Definition with_nextpid (n : Z) (s : kstate) : kstate :=
  KState (pidinfo_tbl s) n (nprocs s) (pidlock s) (freed s).

(** The record [pidinfo_create] makes of the block [blk]. *)
Definition created (pid ppid : Z) (blk : pidinfo) : pidinfo :=
  PidInfo pid ppid false 47789 (detached blk).

(** A successful [pid_alloc] of [pid] by [me]. *)
Definition alloc_state (pid me : Z) (blk : pidinfo) (s : kstate) : kstate :=
  KState (<[Z.to_nat (slot pid) := Some (created pid me blk)]> (pidinfo_tbl s))
         (next pid) (int_wrap (nprocs s + 1)) (pidlock s) (freed s).

(** *** Reclaiming *)

(** What [pidinfo_destroy] asks of the record it frees. *)
Definition destroy_ok (pi : pidinfo) : Prop :=
  pi_exited pi = true /\ pi_ppid pi = INVALID_PID.

(** The log [log'] is [log] with further records in front, each of
    them fit to be destroyed when it was freed. *)
Definition extends_ok (log log' : list pidinfo) : Prop :=
  exists new, log' = new ++ log /\ Forall destroy_ok new.

(** The faults other than a failed assertion of [pidinfo_destroy]. *)
Definition no_destroy_fault (e : fault) : Prop :=
  e <> KAssert 115 /\ e <> KAssert 116.

(** The records in the table together with the records freed. *)
Definition census (s : kstate) : nat :=
  (occupied (pidinfo_tbl s) + length (freed s))%nat.

(** From [s] to [s'] as many records have left the table as were
    freed, and each record freed was fit to be destroyed at that moment. *)
Definition reclaimed (s s' : kstate) : Prop :=
  extends_ok (freed s) (freed s') /\ census s' = census s.

(** A result of a call made in [s] in which the records were reclaimed
    as they should, and which is not a failed assertion of
    [pidinfo_destroy] (nor a sleep: the operations that reclaim never
    wait). *)
Definition reclaims_ok {A} (s : kstate) (r : res A) : Prop :=
  match r with
  | Done _ s' => reclaimed s s'
  | Abort e => no_destroy_fault e
  | Blocked _ _ => False
  end.

(** [post Q r]: the call returned with [Q], or stopped with a fault that
    is not an assertion of [pidinfo_destroy]. *)
Definition post {A} (Q : A -> kstate -> Prop) (r : res A) : Prop :=
  match r with
  | Done a s => Q a s
  | Abort e => no_destroy_fault e
  | Blocked _ _ => False
  end.

(** [returns Q r]: if the call returned, then with [Q]; it did not go
    to sleep. *)
Definition returns {A} (Q : A -> kstate -> Prop) (r : res A) : Prop :=
  match r with
  | Done a s => Q a s
  | Abort _ => True
  | Blocked _ _ => False
  end.

(** The lock is held as often as in [s], over a table of the same size. *)
Definition same_lock (s s' : kstate) : Prop :=
  pidlock s' = pidlock s /\
  length (pidinfo_tbl s') = length (pidinfo_tbl s).

(** What the loop of [pid_exit] maintains since the state [s0]: the
    table keeps its size, records are reclaimed as they should, and the
    slot [p] of the exiting thread is empty or holds a record that has
    exited and belongs there. *)
Definition exit_inv (s0 : kstate) (p : ptr) (s : kstate) : Prop :=
  length (pidinfo_tbl s) = Z.to_nat PROCS_MAX /\
  reclaimed s0 s /\
  forall r, pidinfo_tbl s !! Z.to_nat p = Some (Some r) ->
            pi_exited r = true /\ slot (pi_pid r) = p.

(** The record [c] sits untouched in the slot of its pid. *)
Definition untouched (c : pidinfo) (s : kstate) : Prop :=
  length (pidinfo_tbl s) = Z.to_nat PROCS_MAX /\
  pidinfo_tbl s !! Z.to_nat (slot (pi_pid c)) = Some (Some c).

(** The same of a record that may or may not be singled out. *)
Definition tracked (oc : option pidinfo) (s : kstate) : Prop :=
  match oc with
  | None => True
  | Some c => untouched c s
  end.

(** The state [pid_bootstrap] sets up from a block [blk]. *)
Definition boot_state (blk : pidinfo) : kstate :=
  KState (<[Z.to_nat BOOTUP_PID := Some (created BOOTUP_PID INVALID_PID blk)]>
            (replicate (Z.to_nat PROCS_MAX) None))
         PID_MIN 1 0 [].

(** The invariant as a check that can be run. *)
Definition slot_okb (i : nat) (r : pidinfo) : bool :=
  (0 <=? pi_pid r) && (slot (pi_pid r) =? Z.of_nat i) &&
  ((PID_MIN <=? pi_pid r) && (pi_pid r <=? PID_MAX)
   || (pi_pid r =? BOOTUP_PID) && (pi_ppid r =? INVALID_PID)).

Fixpoint slots_okb (i : nat) (t : list (option pidinfo)) : bool :=
  match t with
  | [] => true
  | e :: t' =>
      match e with None => true | Some r => slot_okb i r end
      && slots_okb (S i) t'
  end.

Definition wfb (s : kstate) : bool :=
  Nat.eqb (length (pidinfo_tbl s)) (Z.to_nat PROCS_MAX)
  && slots_okb 0 (pidinfo_tbl s)
  && (nprocs s =? live_count s)
  && (PID_MIN <=? nextpid s) && (nextpid s <=? PID_MAX).

(** The state an operation leaves behind when it returns (the state it
    started from otherwise); used to build states by running the
    operations. *)
Definition after {A} (m : M A) (s : kstate) : kstate :=
  match m s with Done _ s' => s' | _ => s end.

(** *** Statements that are tested against the code below *)

(** A non-blocking join on a child that has not exited returns 0 at
    once and leaves the caller's status destination as it was. *)
Definition nohang_join_leaves_status : Prop :=
  forall s me t r status,
    wf s -> record_of s t = Some r -> pi_ppid r <> INVALID_PID ->
    t <> me -> pi_exited r = false ->
    exists s', pid_join me t status WNOHANG s = Done (0, status) s'.

(** Once a detach of [x] has succeeded, a second one by the same
    caller fails with EINVAL. *)
Definition second_detach_is_einval : Prop :=
  forall s me x s1,
    wf s -> pid_detach me x s = Done 0 s1 ->
    exists s2, pid_detach me x s1 = Done (- EINVAL) s2.

(** *** Further state functions *)

(** [pid_exit] without the loop over the children, for a caller whose
    record is [r]: the record is marked, and reclaimed if it was
    detached. *)
Definition exit_state (me status : Z) (r : pidinfo) (s : kstate) : kstate :=
  let r' := set_exitstatus status (set_exited true r) in
  if detached r then drop_state (slot me) (set_ppid INVALID_PID r') s
  else put_state (slot me) r' s.

(** The record [pid_unalloc] hands to [pi_drop]. *)
Definition unalloc_record (r : pidinfo) : pidinfo :=
  set_ppid INVALID_PID (set_exited true (set_exitstatus 57005 r)).

(** A child as [pid_detach] leaves it: without parent, detached. *)
Definition disowned (c : pidinfo) : pidinfo :=
  set_detached true (set_ppid INVALID_PID c).

(** The tests [pid_join] makes on its target before it looks at the
    exit status, as the error they end in, if any. *)
Definition join_error (s : kstate) (me t : Z) : option Z :=
  if (t =? INVALID_PID) || (t =? BOOTUP_PID) || (t <? PID_MIN) || (t >? PID_MAX)
  then Some (- EINVAL)
  else match record_of s t with
       | None => Some (- ESRCH)
       | Some r => if pi_ppid r =? INVALID_PID then Some (- EINVAL)
                   else if t =? me then Some (- EDEADLK)
                   else None
       end.

(** What [pid_exit] by [me] has done to the other records of [s0] once
    its loop has come to the pid [upto]: the children of [me] with a
    pid from [PID_MIN] up to, but not including, [upto] are disowned, and
    every other record is as it was. *)
Definition exit_leaves (me upto : Z) (s0 s : kstate) : Prop :=
  forall c,
    pidinfo_tbl s0 !! Z.to_nat (slot (pi_pid c)) = Some (Some c) ->
    pi_pid c <> me ->
    (pi_ppid c = me -> PID_MIN <= pi_pid c < upto ->
     pidinfo_tbl s !! Z.to_nat (slot (pi_pid c)) = Some (Some (disowned c))) /\
    (~ (pi_ppid c = me /\ PID_MIN <= pi_pid c < upto) ->
     pidinfo_tbl s !! Z.to_nat (slot (pi_pid c)) = Some (Some c)).

(** What holds before the round for the pid [i] of the loop of
    [pid_exit]: the table has its size, the lock is held, the slot [p]
    of the caller holds no record of another pid, and the loop has done
    its work up to [i]. *)
Definition disown_inv (me : Z) (p : ptr) (held : nat) (s0 : kstate)
    (i : Z) (s : kstate) : Prop :=
  length (pidinfo_tbl s) = Z.to_nat PROCS_MAX /\
  pidlock s = S held /\
  (forall m, pidinfo_tbl s !! Z.to_nat p = Some (Some m) -> pi_pid m = me) /\
  exit_leaves me i s0 s.

End Views.

(** * A sample configuration

    Values in the style of the OS/161 headers, and a few states reached
    from the bootstrap by running the operations. *)

Definition os161 : limits :=
  {| PROCS_MAX := 128; PID_MIN := 2; PID_MAX := 32767;
     INVALID_PID := 0; BOOTUP_PID := 1; WNOHANG := 1;
     EAGAIN := 4; ENOMEM := 3; EINVAL := 8; ESRCH := 15; EDEADLK := 47 |}.

(** A block of zeroes from [kmalloc], and a block that was last used
    for a record that has since been detached and reclaimed. *)
Definition zero_block : pidinfo := PidInfo 0 0 false 0 false.
Definition stale_block : pidinfo := PidInfo 9 0 true 7 true.

Section Sample.
#[local] Existing Instance os161.

(** After [pid_bootstrap]: the bootstrap record alone. *)
Definition st_boot : kstate :=
  Eval vm_compute in
    after (pid_bootstrap true (Some zero_block) true) zeroed.

(** The bootstrap thread (pid 1) has allocated pid 2. *)
Definition st_child : kstate :=
  Eval vm_compute in after (pid_alloc 1 (Some zero_block) true) st_boot.

(** ... and thread 2 has exited with status 42. *)
Definition st_zombie : kstate :=
  Eval vm_compute in after (pid_exit 2 42 false) st_child.

(** Or thread 1 has detached its child 2 ... *)
Definition st_detached : kstate :=
  Eval vm_compute in after (pid_detach 1 2) st_child.

(** ... or it has detached it after the child had exited. *)
Definition st_reaped : kstate :=
  Eval vm_compute in after (pid_detach 1 2) st_zombie.

(** From [st_child], thread 2 has allocated pid 3, and thread 3 has
    exited with status 7. *)
Definition st_grandchild : kstate :=
  Eval vm_compute in
    after (pid_exit 3 7 false)
      (after (pid_alloc 2 (Some zero_block) true) st_child).

(** From [st_child], thread 2 goes on to allocate pids 3 to 128: every
    slot is taken. *)
Definition st_full : kstate :=
  Eval vm_compute in
    Nat.iter 126 (after (pid_alloc 2 (Some zero_block) true)) st_child.

(** Allocate a pid and take it back at once. *)
Definition alloc_unalloc (s : kstate) : kstate :=
  let s' := after (pid_alloc 2 (Some zero_block) true) s in
  after (pid_unalloc 2 (nextpid s' - 1)) s'.

(** Thread 2 takes back pid 127, and then 254 times allocates a pid and
    takes it back: the only empty slot is 127, so the pids are 255, 383,
    ... and the cursor ends at 32640. *)
Definition st_cursor : kstate :=
  Eval vm_compute in
    Nat.iter 254 alloc_unalloc (after (pid_unalloc 2 127) st_full).

(** The next pid thread 2 allocates is [PID_MAX] = 32767: its children
    are now the pids 3 to 126, 128 and 32767, none of which has exited. *)
Definition st_family : kstate :=
  Eval vm_compute in after (pid_alloc 2 (Some zero_block) true) st_cursor.

(** Thread 2 exits and asks for its children to be detached. *)
Definition st_orphans : kstate :=
  Eval vm_compute in after (pid_exit 2 0 true) st_family.


(** From [st_child], thread 1 has allocated a second child, pid 3. *)
Definition st_sibling : kstate :=
  Eval vm_compute in after (pid_alloc 1 (Some zero_block) true) st_child.

End Sample.

(** * Proofs *)

Section Primitives.
Context `{L : limits}.

Lemma with_lock_same s : with_lock (pidlock s) s = s.
Proof. by destruct s. Qed.

(** ** The runnable check of the invariant is sound *)

Lemma slot_okb_ok i r : slot_okb i r = true -> slot_ok i r.
Proof. unfold slot_okb, slot_ok. lia. Qed.

Lemma slots_okb_lookup t : forall (i j : nat) r,
  slots_okb i t = true -> t !! j = Some (Some r) ->
  slot_okb (i + j) r = true.
Proof.
  induction t as [|e t IH]; intros i j r Hok Hj; [done|].
  simpl in Hok. apply andb_true_iff in Hok as [He Ht].
  destruct j as [|j]; simpl in Hj.
  - injection Hj as ->. by rewrite Nat.add_0_r.
  - rewrite Nat.add_succ_r. by apply (IH (S i)).
Qed.


Lemma wfb_wf s : wfb s = true -> wf s.
Proof.
  unfold wfb. rewrite !andb_true_iff.
  intros ((((Hlen & Hslots) & Hcount) & Hlo) & Hhi). split.
  - by apply Nat.eqb_eq.
  - intros i r Hi. apply slot_okb_ok.
    by apply (slots_okb_lookup _ 0%nat i r Hslots).
  - lia.
  - lia.
Qed.

(** ** Running the primitives *)

Lemma tbl_read_at s i e :
  0 <= i -> pidinfo_tbl s !! Z.to_nat i = Some e -> tbl_read i s = Done e s.
Proof.
  intros Hi He. unfold tbl_read.
  destruct (Z.ltb_spec i 0); [lia|]. by rewrite He.
Qed.

Lemma load_at s p r :
  0 <= p -> pidinfo_tbl s !! Z.to_nat p = Some (Some r) -> load p s = Done r s.
Proof.
  intros Hp Hr. unfold load, bind. by rewrite (tbl_read_at s p (Some r)).
Qed.

Lemma tbl_write_at s i e e' :
  0 <= i -> pidinfo_tbl s !! Z.to_nat i = Some e ->
  tbl_write i e' s = Done tt (with_tbl (<[Z.to_nat i := e']> (pidinfo_tbl s)) s).
Proof.
  intros Hi He. unfold tbl_write.
  destruct (Z.ltb_spec i 0); [lia|]. by rewrite He.
Qed.

Lemma store_at s p r f :
  0 <= p -> pidinfo_tbl s !! Z.to_nat p = Some (Some r) ->
  store p f s
  = Done tt (with_tbl (<[Z.to_nat p := Some (f r)]> (pidinfo_tbl s)) s).
Proof.
  intros Hp Hr. unfold store, bind. rewrite (load_at s p r) by done.
  simpl. by rewrite (tbl_write_at _ p (Some r)).
Qed.

Lemma slot_nonneg pid : 0 < PROCS_MAX -> 0 <= pid -> 0 <= slot pid < PROCS_MAX.
Proof.
  intros HP Hpid. unfold slot. rewrite Z.rem_mod_nonneg by lia.
  apply Z.mod_pos_bound; lia.
Qed.

Lemma record_of_slot s pid r :
  record_of s pid = Some r ->
  pidinfo_tbl s !! Z.to_nat (slot pid) = Some (Some r) /\ pi_pid r = pid.
Proof.
  unfold record_of. destruct (pidinfo_tbl s !! _) as [[r'|]|]; try done.
  destruct (Z.eqb_spec (pi_pid r') pid); [|done]. by intros [= ->].
Qed.

Lemma pi_get_eq s pid :
  0 < PROCS_MAX -> length (pidinfo_tbl s) = Z.to_nat PROCS_MAX ->
  0 <= pid -> pid <> INVALID_PID -> pidlock s <> 0%nat ->
  pi_get pid s
  = Done (match record_of s pid with Some _ => Some (slot pid) | None => None end) s.
Proof.
  intros HP Hlen Hpid Hinv Hlock. unfold pi_get, bind, KASSERT, lock_do_i_hold.
  destruct (Z.leb_spec 0 pid); [|lia]. simpl.
  destruct (Z.eqb_spec pid INVALID_PID); [done|]. simpl.
  destruct (pidlock s) as [|held] eqn:Hheld; [done|]. simpl.
  pose proof (slot_nonneg pid HP Hpid) as Hs.
  destruct (lookup_lt_is_Some_2 (pidinfo_tbl s) (Z.to_nat (slot pid))) as [e He];
    [lia|].
  rewrite (tbl_read_at _ (slot pid) e) by (done || lia). simpl.
  unfold record_of. rewrite He. destruct e as [r|]; [|done].
  by destruct (pi_pid r =? pid).
Qed.


Lemma record_of_with_lock s n pid :
  record_of (with_lock n s) pid = record_of s pid.
Proof. done. Qed.

(** Under the invariant a record with a parent carries a pid of the
    allocatable range. *)
Lemma parented_in_range s pid r :
  wf s -> record_of s pid = Some r -> pi_ppid r <> INVALID_PID ->
  PID_MIN <= pid <= PID_MAX.
Proof.
  intros Hwf Hr Hpp. apply record_of_slot in Hr as [Hr <-].
  destruct (wf_slots s Hwf _ _ Hr) as (_ & _ & [?|[_ ?]]); [done|congruence].
Qed.

Lemma range_checks pid :
  limits_ok -> PID_MIN <= pid <= PID_MAX ->
  0 <= pid /\ pid <> INVALID_PID /\ pid <> BOOTUP_PID /\
  (pid =? INVALID_PID) || (pid =? BOOTUP_PID) || (pid <? PID_MIN) = false /\
  (pid >? PID_MAX) = false.
Proof.
  intros HL Hpid.
  pose proof (pid_min_nonneg HL). pose proof (invalid_outside HL).
  pose proof (bootup_outside HL).
  assert (pid <> INVALID_PID) by lia. assert (pid <> BOOTUP_PID) by lia.
  repeat split; lia.
Qed.

Lemma store_in s p r f :
  0 <= p -> pidinfo_tbl s !! Z.to_nat p = Some (Some r) ->
  store p f s = Done tt (put_state p (f r) s).
Proof. apply store_at. Qed.

Lemma put_state_lookup s p r :
  (Z.to_nat p < length (pidinfo_tbl s))%nat ->
  pidinfo_tbl (put_state p r s) !! Z.to_nat p = Some (Some r).
Proof. intros Hp. simpl. by apply list_lookup_insert_eq. Qed.

Lemma put_put_state s p r r' :
  put_state p r' (put_state p r s) = put_state p r' s.
Proof. unfold put_state, with_tbl. simpl. by rewrite list_insert_insert_eq. Qed.

Lemma pi_drop_eq s pid r :
  0 <= slot pid -> pidlock s <> 0%nat ->
  pidinfo_tbl s !! Z.to_nat (slot pid) = Some (Some r) ->
  pi_pid r = pid -> pi_exited r = true -> pi_ppid r = INVALID_PID ->
  pi_drop pid s = Done tt (drop_state (slot pid) r s).
Proof.
  intros Hs Hlock Hr Hpid Hex Hpp.
  unfold pi_drop, bind, lock_do_i_hold, KASSERT.
  destruct (pidlock s) as [|held] eqn:Hheld; [done|]. simpl.
  rewrite (tbl_read_at s (slot pid) (Some r)) by done. simpl.
  rewrite Hpid, Z.eqb_refl. simpl.
  unfold pidinfo_destroy, bind, KASSERT. rewrite Hex. simpl.
  rewrite Hpp, Z.eqb_refl. simpl.
  rewrite (tbl_write_at _ (slot pid) (Some r)) by done. simpl.
  unfold drop_state. by rewrite Hheld.
Qed.

End Primitives.

(** ** Allocation *)

Section Alloc.
Context `{L : limits}.

Lemma int_wrap_small z : - 2 ^ 31 <= z < 2 ^ 31 -> int_wrap z = z.
Proof.
  intros Hz. unfold int_wrap. rewrite Z.mod_small; lia.
Qed.

(** *** Counting the occupied slots *)

Lemma occupied_le (t : list (option pidinfo)) :
  (occupied t <= length t)%nat.
Proof. induction t as [|[r|] t IH]; simpl; lia. Qed.

Lemma occupied_live (t : list (option pidinfo)) :
  occupied t = length (omap id t).
Proof. induction t as [|[r|] t IH]; [done| |done]. cbn. by rewrite IH. Qed.

Lemma free_slot_exists (t : list (option pidinfo)) :
  (occupied t < length t)%nat -> exists i : nat, t !! i = Some None.
Proof.
  induction t as [|[r|] t IH]; simpl; intros Hlt.
  - lia.
  - destruct IH as [i Hi]; [lia|]. by exists (S i).
  - by exists 0%nat.
Qed.

Lemma occupied_insert_free (t : list (option pidinfo)) : forall (i : nat) r,
  t !! i = Some None ->
  occupied (<[i := Some r]> t) = S (occupied t).
Proof.
  induction t as [|e t IH]; intros i r Hi; [done|].
  destruct i as [|i]; simpl in *.
  - by injection Hi as ->.
  - rewrite (IH i r Hi). by destruct e.
Qed.

Lemma occupied_insert_clear (t : list (option pidinfo)) : forall (i : nat) r,
  t !! i = Some (Some r) ->
  S (occupied (<[i := None]> t)) = occupied t.
Proof.
  induction t as [|e t IH]; intros i r Hi; [done|].
  destruct i as [|i]; simpl in *.
  - by injection Hi as ->.
  - destruct e; simpl; by rewrite <- (IH i r Hi).
Qed.

Lemma occupied_insert_same (t : list (option pidinfo)) : forall (i : nat) r r',
  t !! i = Some (Some r) ->
  occupied (<[i := Some r']> t) = occupied t.
Proof.
  induction t as [|e t IH]; intros i r r' Hi; [done|].
  destruct i as [|i]; simpl in *.
  - by injection Hi as ->.
  - destruct e; simpl; by rewrite (IH i r r' Hi).
Qed.

Lemma live_lookup (t : list (option pidinfo)) r :
  r ∈ omap id t <-> exists i : nat, t !! i = Some (Some r).
Proof.
  rewrite list_elem_of_omap. split.
  - intros (e & He & Hid). simpl in Hid. subst e.
    by apply list_elem_of_lookup in He.
  - intros [i Hi]. exists (Some r). split; [|done].
    apply list_elem_of_lookup. by exists i.
Qed.

(** *** The cursor *)

Lemma next_range n :
  limits_ok -> PID_MIN <= n <= PID_MAX -> PID_MIN <= next n <= PID_MAX.
Proof.
  intros HL Hn. pose proof (pid_range_wide HL). pose proof (procs_pos HL).
  unfold next. rewrite Z.gtb_ltb. destruct (Z.ltb_spec PID_MAX (n + 1)); lia.
Qed.


Lemma advance_plain k : forall n,
  n + Z.of_nat k <= PID_MAX -> advance k n = n + Z.of_nat k.
Proof.
  induction k as [|k IH]; intros n Hn; simpl; [lia|].
  unfold next. rewrite Z.gtb_ltb. destruct (Z.ltb_spec PID_MAX (n + 1)); [lia|].
  rewrite IH; lia.
Qed.

Lemma advance_add a : forall b n, advance (a + b) n = advance b (advance a n).
Proof. induction a as [|a IH]; intros b n; simpl; [done|apply IH]. Qed.

Lemma advance_wrap n :
  PID_MIN <= n <= PID_MAX ->
  advance (Z.to_nat (PID_MAX - n + 1)) n = PID_MIN.
Proof.
  intros Hn.
  replace (Z.to_nat (PID_MAX - n + 1)) with (Z.to_nat (PID_MAX - n) + 1)%nat by lia.
  rewrite advance_add, (advance_plain _ n) by lia. simpl. unfold next.
  rewrite Z.gtb_ltb. destruct (Z.ltb_spec PID_MAX (n + Z.of_nat (Z.to_nat (PID_MAX - n)) + 1)); lia.
Qed.

(** From a pid [n] with [PROCS_MAX] successors in the range, slot [f]
    is met within [PROCS_MAX - 1] steps. *)
Lemma slot_met_plain n f :
  0 < PROCS_MAX -> 0 <= n -> 0 <= f < PROCS_MAX ->
  let d := (f - n) mod PROCS_MAX in
  0 <= d < PROCS_MAX /\ slot (n + d) = f.
Proof.
  intros HP Hn Hf d.
  assert (Hd : 0 <= d < PROCS_MAX) by (apply Z.mod_pos_bound; lia).
  split; [done|]. unfold slot. rewrite Z.rem_mod_nonneg by lia.
  unfold d. rewrite Zplus_mod_idemp_r.
  replace (n + (f - n)) with f by lia. apply Z.mod_small; lia.
Qed.

(** Every slot is met within [2 * PROCS_MAX] steps of the cursor. *)
Lemma slot_met n f :
  limits_ok -> PID_MIN <= n <= PID_MAX -> 0 <= f < PROCS_MAX ->
  exists k : nat, (k <= Z.to_nat (PROCS_MAX * 2 + 5))%nat /\
                  slot (advance k n) = f.
Proof.
  intros HL Hn Hf. pose proof (procs_pos HL) as HP.
  pose proof (pid_min_nonneg HL) as Hmin. pose proof (pid_range_wide HL) as Hwide.
  destruct (slot_met_plain n f HP ltac:(lia) Hf) as [Hd Hslot].
  set (d := (f - n) mod PROCS_MAX) in *.
  destruct (Z_le_gt_dec (n + d) PID_MAX) as [Hfit|Hover].
  - exists (Z.to_nat d). split; [lia|].
    rewrite advance_plain by lia. by rewrite Z2Nat.id by lia.
  - destruct (slot_met_plain PID_MIN f HP Hmin Hf) as [Hd' Hslot'].
    set (d' := (f - PID_MIN) mod PROCS_MAX) in *.
    exists (Z.to_nat (PID_MAX - n + 1) + Z.to_nat d')%nat. split; [lia|].
    rewrite advance_add, advance_wrap by done.
    rewrite (advance_plain _ PID_MIN) by lia. by rewrite Z2Nat.id by lia.
Qed.

(** *** The probing loop *)

Lemma probe_finds t k : forall budget n,
  (k <= budget)%nat -> t !! Z.to_nat (slot (advance k n)) = Some None ->
  exists n', probe budget t n = Some n'.
Proof.
  induction k as [|k IH]; intros budget n Hk Hfree; simpl in Hfree.
  - exists n. destruct budget; simpl; by rewrite Hfree.
  - destruct budget as [|budget]; [lia|]. simpl.
    destruct (t !! Z.to_nat (slot n)) as [[r|]|]; try by eexists.
    + apply IH; [lia|done].
    + apply IH; [lia|done].
Qed.

Lemma probe_sound t budget : forall n n',
  limits_ok -> PID_MIN <= n <= PID_MAX -> probe budget t n = Some n' ->
  PID_MIN <= n' <= PID_MAX /\ t !! Z.to_nat (slot n') = Some None.
Proof.
  induction budget as [|budget IH]; intros n n' HL Hn Hp; simpl in Hp.
  - destruct (t !! Z.to_nat (slot n)) as [[r|]|] eqn:Hs; try done.
    by injection Hp as <-.
  - destruct (t !! Z.to_nat (slot n)) as [[r|]|] eqn:Hs.
    + apply (IH (next n)); [done|by apply next_range|done].
    + by injection Hp as <-.
    + apply (IH (next n)); [done|by apply next_range|done].
Qed.

Lemma inc_nextpid_eq s :
  limits_ok -> pidlock s <> 0%nat -> PID_MIN <= nextpid s <= PID_MAX ->
  inc_nextpid s = Done tt (with_nextpid (next (nextpid s)) s).
Proof.
  intros HL Hlock Hn. pose proof (pid_max_int HL). pose proof (pid_min_nonneg HL).
  unfold inc_nextpid, bind, lock_do_i_hold, KASSERT.
  destruct (pidlock s) as [|held] eqn:Hheld; [done|]. simpl.
  rewrite int_wrap_small by lia. unfold next, with_nextpid.
  destruct (nextpid s + 1 >? PID_MAX); simpl; by rewrite Hheld.
Qed.

Lemma with_nextpid_same s : with_nextpid (nextpid s) s = s.
Proof. by destruct s. Qed.

Lemma alloc_scan_eq budget : forall s,
  limits_ok -> length (pidinfo_tbl s) = Z.to_nat PROCS_MAX ->
  pidlock s <> 0%nat -> PID_MIN <= nextpid s <= PID_MAX ->
  alloc_scan budget s
  = match probe budget (pidinfo_tbl s) (nextpid s) with
    | Some n' => Done tt (with_nextpid n' s)
    | None => Abort (KAssert 258)
    end.
Proof.
  induction budget as [|budget IH]; intros s HL Hlen Hlock Hn;
    pose proof (procs_pos HL) as HP; pose proof (pid_min_nonneg HL) as Hmin;
    destruct (slot_nonneg (nextpid s) HP ltac:(lia)) as [Hs0 Hs1];
    destruct (lookup_lt_is_Some_2 (pidinfo_tbl s) (Z.to_nat (slot (nextpid s))))
      as [e He]; try lia;
    simpl; unfold bind; simpl;
    rewrite (tbl_read_at s _ e) by done; rewrite He; simpl.
  - destruct e; [done|]. by rewrite with_nextpid_same.
  - destruct e; [|by rewrite with_nextpid_same].
    rewrite inc_nextpid_eq by done. simpl.
    rewrite IH; [done..|]. simpl. by apply next_range.
Qed.

(** [pid_alloc] as a function of the state it starts in. *)
Lemma pid_alloc_eq s me km cv :
  limits_ok -> wf s -> me <> INVALID_PID ->
  pid_alloc me km cv s
  = if nprocs s =? PROCS_MAX then Done (EAGAIN, None) s
    else match probe (Z.to_nat (PROCS_MAX * 2 + 5)) (pidinfo_tbl s) (nextpid s) with
         | None => Abort (KAssert 258)
         | Some pid =>
             match km with
             | Some blk =>
                 if cv then Done (0, Some pid) (alloc_state pid me blk s)
                 else Done (ENOMEM, None) (with_nextpid pid s)
             | None => Done (ENOMEM, None) (with_nextpid pid s)
             end
         end.
Proof.
  intros HL Hwf Hme. pose proof (procs_pos HL) as HP.
  pose proof (pid_min_nonneg HL) as Hmin. pose proof (invalid_outside HL) as Hout.
  unfold pid_alloc, bind, KASSERT.
  destruct (Z.eqb_spec me INVALID_PID); [done|]. simpl.
  destruct (nprocs s =? PROCS_MAX); simpl; [by destruct s|].
  change (KState _ _ _ _ _) with (with_lock (S (pidlock s)) s).
  rewrite alloc_scan_eq by (done || apply Hwf). simpl.
  destruct (probe _ _ _) as [pid|] eqn:Hprobe; [|done]. simpl.
  destruct (probe_sound _ _ _ _ HL (wf_next s Hwf) Hprobe) as [Hpid Hfree].
  assert (Hpidinv : pid <> INVALID_PID) by lia.
  destruct (slot_nonneg pid HP ltac:(lia)) as [Hs0 Hs1].
  unfold pidinfo_create, bind, KASSERT.
  destruct (Z.eqb_spec pid INVALID_PID); [done|]. simpl.
  destruct km as [blk|]; simpl; [|by destruct s].
  destruct cv; simpl; [|by destruct s].
  unfold pi_put, bind, KASSERT. simpl.
  destruct (Z.eqb_spec pid INVALID_PID); [done|]. simpl.
  rewrite (tbl_read_at _ (slot pid) None) by done. simpl.
  rewrite (tbl_write_at _ (slot pid) None) by done. simpl.
  match goal with |- context [inc_nextpid ?st] =>
    rewrite (inc_nextpid_eq st) by (simpl; done || lia) end.
  by simpl.
Qed.

Lemma live_count_le s :
  limits_ok -> wf s -> 0 <= live_count s <= PROCS_MAX.
Proof.
  intros HL Hwf. unfold live_count. pose proof (procs_pos HL).
  pose proof (occupied_le (pidinfo_tbl s)). pose proof (wf_len s Hwf). lia.
Qed.

(** The invariant survives a successful allocation. *)
Lemma alloc_state_wf s pid me blk :
  limits_ok -> wf s -> PID_MIN <= pid <= PID_MAX ->
  pidinfo_tbl s !! Z.to_nat (slot pid) = Some None ->
  wf (alloc_state pid me blk s) /\
  live_count (alloc_state pid me blk s) = live_count s + 1.
Proof.
  intros HL Hwf Hpid Hfree. pose proof (procs_pos HL) as HP.
  pose proof (pid_min_nonneg HL) as Hmin. pose proof (procs_int HL) as Hint.
  pose proof (live_count_le s HL Hwf) as Hle.
  destruct (slot_nonneg pid HP ltac:(lia)) as [Hs0 Hs1].
  assert (Hcount : live_count (alloc_state pid me blk s) = live_count s + 1).
  { unfold live_count, alloc_state. simpl.
    rewrite occupied_insert_free by done. lia. }
  split; [|done]. split.
  - simpl. rewrite length_insert. apply Hwf.
  - intros i r. simpl. intros Hi.
    apply list_lookup_insert_Some in Hi as [(<- & Hr & _)|[Hne Hi]].
    + injection Hr as <-. unfold slot_ok, created. simpl.
      repeat split; [lia|lia|by left].
    + by apply (wf_slots s Hwf).
  - rewrite Hcount. simpl. rewrite (wf_count s Hwf).
    apply int_wrap_small. lia.
  - simpl. by apply next_range.
Qed.

(** No live record carries the pid of an empty slot. *)
Lemma free_slot_fresh s pid r :
  wf s -> pidinfo_tbl s !! Z.to_nat (slot pid) = Some None ->
  r ∈ live s -> pi_pid r <> pid.
Proof.
  intros Hwf Hfree Hr Heq. apply live_lookup in Hr as [i Hi].
  destruct (wf_slots s Hwf i r Hi) as (_ & Hslot & _).
  rewrite Heq in Hslot. rewrite Hslot, Nat2Z.id in Hfree. congruence.
Qed.

(** With room in the table the probing loop finds a pid. *)
Lemma probe_succeeds s :
  limits_ok -> wf s -> live_count s <> PROCS_MAX ->
  exists pid,
    probe (Z.to_nat (PROCS_MAX * 2 + 5)) (pidinfo_tbl s) (nextpid s) = Some pid.
Proof.
  intros HL Hwf Hroom. pose proof (live_count_le s HL Hwf) as Hle.
  pose proof (wf_len s Hwf) as Hlen.
  destruct (free_slot_exists (pidinfo_tbl s)) as [f Hf].
  { unfold live_count in *. lia. }
  pose proof (lookup_lt_Some _ _ _ Hf) as Hflt.
  destruct (slot_met (nextpid s) (Z.of_nat f) HL (wf_next s Hwf)) as (k & Hk & Hslot);
    [lia|].
  apply (probe_finds _ k); [done|]. by rewrite Hslot, Nat2Z.id.
Qed.

(** C4: [pid_alloc] returns EAGAIN exactly when the table holds
    [PROCS_MAX] records, and then changes nothing; a call that returns 0
    hands out a pid of [[PID_MIN, PID_MAX]] that no live record carries,
    and leaves one record more, still at most [PROCS_MAX], with
    [nprocs] equal to the number of records; with room in the table and
    memory for the record the call does return 0. *)
Theorem alloc_fresh_pid_or_eagain s me km cv :
  limits_ok -> wf s -> me <> INVALID_PID ->
  ((exists rv s', pid_alloc me km cv s = Done (EAGAIN, rv) s')
   <-> live_count s = PROCS_MAX) /\
  (live_count s = PROCS_MAX -> pid_alloc me km cv s = Done (EAGAIN, None) s) /\
  (forall pid s',
     pid_alloc me km cv s = Done (0, Some pid) s' ->
     PID_MIN <= pid <= PID_MAX /\
     (forall r, r ∈ live s -> pi_pid r <> pid) /\
     live_count s' = live_count s + 1 /\
     live_count s' <= PROCS_MAX /\
     nprocs s' = live_count s') /\
  (live_count s <> PROCS_MAX -> is_Some km -> cv = true ->
     exists pid s', pid_alloc me km cv s = Done (0, Some pid) s').
Proof.
  intros HL Hwf Hme. pose proof (wf_count s Hwf) as Hcount.
  destruct (errno_pos HL) as (Hagain & Hnomem & _).
  pose proof (errno_alloc HL) as Hdiff.
  rewrite pid_alloc_eq by done. rewrite Hcount.
  destruct (Z.eqb_spec (live_count s) PROCS_MAX) as [Hfull|Hroom].
  { split; [|split; [|split]]; try done.
    split; [done|]. by exists None, s. }
  destruct (probe_succeeds s HL Hwf Hroom) as [pid Hprobe]. rewrite Hprobe.
  destruct (probe_sound _ _ _ _ HL (wf_next s Hwf) Hprobe) as [Hpid Hfree].
  split; [|split; [done|split]].
  - split; [|done]. intros (rv & s' & Hret).
    destruct km as [blk|]; [destruct cv|]; injection Hret; intros; lia.
  - intros pid' s' Hret.
    destruct km as [blk|]; [destruct cv|]; injection Hret; intros; try lia.
    subst pid' s'.
    destruct (alloc_state_wf s pid me blk HL Hwf Hpid Hfree) as [Hwf' Hcount'].
    repeat split; try lia.
    + intros r Hr. by apply (free_slot_fresh s).
    + rewrite Hcount'. pose proof (live_count_le _ HL Hwf'). lia.
    + apply Hwf'.
  - intros _ [blk ->] ->. by exists pid, (alloc_state pid me blk s).
Qed.


(** C2 (what the code does): the record a successful [pid_alloc] puts in
    the table has the new pid, the caller as parent, [pi_exited] false
    and the exit status 0xbaad; its [detached] flag is the one found in
    the block that [kmalloc] returned, since [pidinfo_create] never
    assigns it. *)
Theorem alloc_record_fields s me blk cv pid s' :
  limits_ok -> wf s -> me <> INVALID_PID ->
  pid_alloc me (Some blk) cv s = Done (0, Some pid) s' ->
  record_of s' pid = Some (PidInfo pid me false 47789 (detached blk)).
Proof.
  intros HL Hwf Hme Hret. pose proof (procs_pos HL) as HP.
  pose proof (pid_min_nonneg HL) as Hmin.
  destruct (errno_pos HL) as (Hagain & Hnomem & _).
  rewrite pid_alloc_eq in Hret by done.
  destruct (nprocs s =? PROCS_MAX); [injection Hret; intros; lia|].
  destruct (probe _ _ _) as [pid'|] eqn:Hprobe; [|done].
  destruct (probe_sound _ _ _ _ HL (wf_next s Hwf) Hprobe) as [Hpid Hfree].
  destruct cv; injection Hret; intros; [|lia]. subst pid' s'.
  destruct (slot_nonneg pid HP ltac:(lia)) as [Hs0 Hs1].
  unfold record_of, alloc_state. simpl.
  rewrite list_lookup_insert_eq by (by eapply lookup_lt_Some).
  simpl. by rewrite Z.eqb_refl.
Qed.

End Alloc.

(** ** Detach *)

Section Detach.
Context `{L : limits}.

(** [pid_detach] as a function of the state it starts in. *)
Lemma pid_detach_eq s me x :
  limits_ok -> length (pidinfo_tbl s) = Z.to_nat PROCS_MAX ->
  pid_detach me x s
  = if (x =? INVALID_PID) || (x =? BOOTUP_PID) || (x <? PID_MIN)
    then Done (- EINVAL) s
    else match record_of s x with
         | None => Done (- ESRCH) s
         | Some r =>
             if pi_ppid r =? INVALID_PID then Done (- EINVAL) s
             else if negb (pi_ppid r =? me) then Done (- EINVAL) s
             else Done 0 (detach_state x r s)
         end.
Proof.
  intros HL Hlen. pose proof (procs_pos HL) as HP.
  pose proof (pid_min_nonneg HL) as Hmin.
  unfold pid_detach, bind. simpl.
  destruct ((x =? INVALID_PID) || (x =? BOOTUP_PID) || (x <? PID_MIN)) eqn:Hchk.
  { simpl. by destruct s. }
  assert (0 <= x /\ x <> INVALID_PID) as [Hx Hxinv] by lia.
  change (KState _ _ _ _ _) with (with_lock (S (pidlock s)) s).
  rewrite pi_get_eq by done. rewrite record_of_with_lock.
  destruct (record_of s x) as [r|] eqn:Hr; simpl; [|by destruct s].
  destruct (record_of_slot s x r Hr) as [Hslot Hpid].
  destruct (slot_nonneg x HP Hx) as [Hs0 Hs1].
  assert (Hin : (Z.to_nat (slot x) < length (pidinfo_tbl s))%nat) by lia.
  rewrite (load_at _ (slot x) r) by done. simpl.
  destruct (pi_ppid r =? INVALID_PID); [by destruct s|].
  rewrite (load_at _ (slot x) r) by done. simpl.
  destruct (pi_ppid r =? me); simpl; [|by destruct s].
  change (KState _ _ _ _ _) with (with_lock (S (pidlock s)) s).
  rewrite (store_in _ (slot x) r) by done. simpl.
  erewrite store_in; [|done|by apply put_state_lookup]. simpl.
  rewrite put_put_state.
  erewrite load_at; [|done|by apply put_state_lookup]. simpl.
  unfold detach_state. destruct (pi_exited r) eqn:Hex; simpl.
  - erewrite load_at; [|done|by apply put_state_lookup]. simpl.
    rewrite Hpid.
    erewrite pi_drop_eq; [| done | done | by apply put_state_lookup | done..].
    simpl. unfold drop_state, put_state, with_tbl. simpl.
    by rewrite list_insert_insert_eq.
  - by destruct s.
Qed.

Lemma record_of_put_state s x r r' :
  0 <= slot x -> pidinfo_tbl s !! Z.to_nat (slot x) = Some (Some r) ->
  pi_pid r' = x ->
  record_of (put_state (slot x) r' s) x = Some r'.
Proof.
  intros Hs Hr Hpid. unfold record_of.
  rewrite put_state_lookup by (by eapply lookup_lt_Some).
  by rewrite Hpid, Z.eqb_refl.
Qed.

Lemma record_of_drop_state s x r r' :
  pidinfo_tbl s !! Z.to_nat (slot x) = Some (Some r) ->
  record_of (drop_state (slot x) r' s) x = None.
Proof.
  intros Hr. unfold record_of, drop_state. simpl.
  rewrite list_lookup_insert_eq; [done|by eapply lookup_lt_Some].
Qed.

(** The arguments that the first test of [pid_detach] turns away. *)
Lemma pid_detach_bad_arg s me x :
  x = INVALID_PID \/ x = BOOTUP_PID \/ x < PID_MIN ->
  pid_detach me x s = Done (- EINVAL) s.
Proof.
  intros Hx. unfold pid_detach, bind. simpl.
  replace ((x =? INVALID_PID) || (x =? BOOTUP_PID) || (x <? PID_MIN))
    with true by lia.
  simpl. by destruct s.
Qed.

(** C6 (the part the code misses): a pid above [PID_MAX] is not turned
    away as an invalid argument; it is looked up, not found, and
    [pid_detach] returns [-ESRCH], leaving the state as it was. *)
Theorem detach_above_range_is_esrch s me x :
  limits_ok -> wf s ->
  PID_MAX < x -> x <> INVALID_PID -> x <> BOOTUP_PID ->
  pid_detach me x s = Done (- ESRCH) s.
Proof.
  intros HL Hwf Hx Hinv Hboot.
  pose proof (pid_range_wide HL). pose proof (procs_pos HL).
  rewrite pid_detach_eq by (done || apply Hwf).
  replace ((x =? INVALID_PID) || (x =? BOOTUP_PID) || (x <? PID_MIN))
    with false by lia.
  destruct (record_of s x) as [r|] eqn:Hr; [|done].
  apply record_of_slot in Hr as [Hr Hpid].
  destruct (wf_slots s Hwf _ _ Hr) as (_ & _ & [?|[? _]]); lia.
Qed.

(** C8, as amended: after a successful detach of [x] a second detach of
    [x] by the same caller fails and changes nothing: with [-EINVAL]
    when [x] had not exited at the first detach (its record is still
    there, without a parent), with [-ESRCH] when it had (the first
    detach reclaimed the record). *)
Theorem second_detach_fails s me x s1 :
  limits_ok -> wf s -> pid_detach me x s = Done 0 s1 ->
  exists r, record_of s x = Some r /\
    pid_detach me x s1
    = Done (if pi_exited r then - ESRCH else - EINVAL) s1.
Proof.
  intros HL Hwf H1. pose proof (wf_len s Hwf) as Hlen.
  pose proof (procs_pos HL) as HP. pose proof (pid_min_nonneg HL) as Hmin.
  destruct (errno_pos HL) as (_ & _ & Hinval & Hsrch & _).
  rewrite pid_detach_eq in H1 by done.
  destruct ((x =? INVALID_PID) || (x =? BOOTUP_PID) || (x <? PID_MIN)) eqn:Hchk.
  { injection H1 as ? _. lia. }
  destruct (record_of s x) as [r|] eqn:Hr; [|injection H1 as ? _; lia].
  destruct (pi_ppid r =? INVALID_PID) eqn:Hpp; [injection H1 as ? _; lia|].
  destruct (pi_ppid r =? me) eqn:Hme; simpl in H1; [|injection H1 as ? _; lia].
  injection H1 as <-. exists r. split; [done|].
  destruct (record_of_slot s x r Hr) as [Hslot Hpid].
  assert (0 <= x) as Hx by lia.
  destruct (slot_nonneg x HP Hx) as [Hs0 _].
  unfold detach_state. destruct (pi_exited r).
  - rewrite pid_detach_eq by (done || (simpl; by rewrite length_insert)).
    rewrite Hchk. by rewrite (record_of_drop_state s x r).
  - rewrite pid_detach_eq by (done || (simpl; by rewrite length_insert)).
    rewrite Hchk. rewrite (record_of_put_state s x r) by done.
    simpl. by rewrite Z.eqb_refl.
Qed.

End Detach.

(** ** Join *)

Section Join.
Context `{L : limits}.

(** What [pid_join] leaves in the status cell when it hands out the
    exit status [v]. *)
Lemma pid_join_on_child s me t r status flags :
  limits_ok -> wf s -> record_of s t = Some r ->
  pi_ppid r <> INVALID_PID -> t <> me ->
  (pi_exited r = true ->
   pid_join me t status flags s
   = Done (t, match status with Some _ => Some (pi_exitstatus r) | None => None end) s)
  /\ (pi_exited r = false -> flags = WNOHANG ->
      pid_join me t status flags s
      = match status with
        | Some _ => Done (0, Some 0) s
        | None => Abort NullDeref
        end).
Proof.
  intros HL Hwf Hr Hpp Hme.
  pose proof (parented_in_range s t r Hwf Hr Hpp) as Hrange.
  destruct (range_checks t HL Hrange) as (Ht0 & Htinv & _ & Hc1 & Hc2).
  pose proof (procs_pos HL) as HP.
  destruct (slot_nonneg t HP Ht0) as [Hs0 _].
  destruct (record_of_slot s t r Hr) as [Hslot _].
  pose proof (wf_len s Hwf) as Hlen.
  unfold pid_join, bind. simpl. rewrite Hc1, Hc2. simpl.
  change (KState _ _ _ _ _) with (with_lock (S (pidlock s)) s).
  rewrite pi_get_eq by done. rewrite record_of_with_lock, Hr. simpl.
  rewrite (load_at _ (slot t) r) by done. simpl.
  destruct (Z.eqb_spec (pi_ppid r) INVALID_PID); [done|].
  destruct (Z.eqb_spec t me); [done|].
  rewrite (load_at _ (slot t) r) by done. simpl.
  split; intros Hex; rewrite Hex; simpl.
  - destruct status as [v|]; simpl.
    + rewrite (load_at _ (slot t) r) by done. by destruct s.
    + by destruct s.
  - intros ->. rewrite Z.eqb_refl. destruct status as [v|]; simpl; [|done].
    by destruct s.
Qed.

(** C7: a join on a child that has exited returns the joined pid and
    stores the child's exit status through a non-null status pointer; the
    state it returns in is the one it started from, so the record stays
    in the table, nothing is freed, and joining again gives the same. *)
Theorem join_exited_keeps_record s me t r status flags :
  limits_ok -> wf s -> record_of s t = Some r ->
  pi_ppid r <> INVALID_PID -> t <> me -> pi_exited r = true ->
  exists s',
    pid_join me t (Some status) flags s = Done (t, Some (pi_exitstatus r)) s' /\
    pidinfo_tbl s' = pidinfo_tbl s /\ freed s' = freed s /\
    record_of s' t = Some r /\
    forall status2 flags2,
      pid_join me t (Some status2) flags2 s'
      = Done (t, Some (pi_exitstatus r)) s'.
Proof.
  intros HL Hwf Hr Hpp Hme Hex. exists s.
  split; [|repeat split; try done].
  - by apply (pid_join_on_child s me t r (Some status) flags).
  - intros status2 flags2.
    by apply (pid_join_on_child s me t r (Some status2) flags2).
Qed.

(** C10: with a NULL status pointer a join on a child that has exited
    still returns the joined pid; nothing is written and the state is
    unchanged. *)
Theorem join_exited_null_status s me t r flags :
  limits_ok -> wf s -> record_of s t = Some r ->
  pi_ppid r <> INVALID_PID -> t <> me -> pi_exited r = true ->
  pid_join me t None flags s = Done (t, None) s.
Proof.
  intros HL Hwf Hr Hpp Hme Hex.
  by apply (pid_join_on_child s me t r None flags).
Qed.

(** C5, as amended: with [flags == WNOHANG] and a non-null status
    pointer, a join on a child that has not exited returns 0 at once,
    in the state it started from; it stores 0 through the status
    pointer. *)
Theorem join_nohang_returns_zero s me t r status :
  limits_ok -> wf s -> record_of s t = Some r ->
  pi_ppid r <> INVALID_PID -> t <> me -> pi_exited r = false ->
  pid_join me t (Some status) WNOHANG s = Done (0, Some 0) s.
Proof.
  intros HL Hwf Hr Hpp Hme Hex.
  by apply (pid_join_on_child s me t r (Some status) WNOHANG).
Qed.


End Join.

(** ** Reclaiming *)

Section Reclaim.
Context `{L : limits}.

Lemma post_bind {A B} (m : M A) (f : A -> M B) s (Q : B -> kstate -> Prop) :
  post (fun a s1 => post Q (f a s1)) (m s) -> post Q (bind m f s).
Proof. unfold bind. by destruct (m s). Qed.

Lemma post_weaken {A} (Q Q' : A -> kstate -> Prop) r :
  post Q r -> (forall a s, Q a s -> Q' a s) -> post Q' r.
Proof. destruct r; simpl; auto. Qed.

Lemma for_loop_post (I : kstate -> Prop) body :
  (forall i s, I s -> post (fun _ s' => I s') (body i s)) ->
  forall n from s, I s -> post (fun _ s' => I s') (for_loop n from body s).
Proof.
  intros Hbody. induction n as [|n IH]; intros from s Hs; [done|].
  simpl. apply post_bind.
  eapply post_weaken; [by apply Hbody|]. intros [] s1 Hs1. by apply IH.
Qed.

Lemma extends_ok_refl log : extends_ok log log.
Proof. by exists []. Qed.

Lemma extends_ok_cons log log' r :
  extends_ok log log' -> destroy_ok r -> extends_ok log (r :: log').
Proof.
  intros (new & -> & Hnew) Hr. exists (r :: new). split; [done|].
  by constructor.
Qed.

(** *** The primitives under [post] *)

Lemma tbl_read_post s i :
  post (fun e s' => s' = s /\ 0 <= i /\ pidinfo_tbl s !! Z.to_nat i = Some e)
       (tbl_read i s).
Proof.
  unfold tbl_read. destruct (Z.ltb_spec i 0); [done|].
  by destruct (pidinfo_tbl s !! Z.to_nat i).
Qed.

Lemma load_post s p :
  post (fun r s' => s' = s /\ 0 <= p /\
                    pidinfo_tbl s !! Z.to_nat p = Some (Some r))
       (load p s).
Proof.
  unfold load. apply post_bind.
  eapply post_weaken; [apply tbl_read_post|].
  intros [r|] s' (-> & Hp & Hr); by simpl.
Qed.

Lemma store_post s p f :
  post (fun _ s' => exists r, 0 <= p /\
                    pidinfo_tbl s !! Z.to_nat p = Some (Some r) /\
                    s' = put_state p (f r) s)
       (store p f s).
Proof.
  unfold store. apply post_bind.
  eapply post_weaken; [apply load_post|].
  intros r s' (-> & Hp & Hr). rewrite (tbl_write_at s p (Some r)) by done.
  simpl. by exists r.
Qed.

Lemma lock_release_post s :
  post (fun _ s' => exists n, pidlock s = S n /\ s' = with_lock n s)
       (lock_release s).
Proof.
  unfold lock_release. destruct (pidlock s) as [|n]; simpl; [done|].
  by exists n.
Qed.

Lemma KASSERT_post line b s :
  line <> 115%nat -> line <> 116%nat ->
  post (fun _ s' => s' = s /\ b = true) (KASSERT line b s).
Proof.
  intros H1 H2. unfold KASSERT. destruct b; simpl; [done|].
  split; congruence.
Qed.

Lemma pi_get_post s pid :
  post (fun v s' => s' = s /\
          forall q, v = Some q ->
            q = slot pid /\ 0 <= q /\
            exists r, pidinfo_tbl s !! Z.to_nat q = Some (Some r) /\
                      pi_pid r = pid)
       (pi_get pid s).
Proof.
  unfold pi_get. apply post_bind.
  eapply post_weaken; [by apply KASSERT_post|]. intros [] s1 [-> _].
  apply post_bind.
  eapply post_weaken; [by apply KASSERT_post|]. intros [] s1 [-> _].
  apply post_bind. unfold lock_do_i_hold. simpl.
  apply post_bind.
  eapply post_weaken; [by apply KASSERT_post|]. intros [] s1 [-> _].
  apply post_bind.
  eapply post_weaken; [apply tbl_read_post|]. intros e s1 (-> & Hs & He).
  destruct e as [r|]; simpl; [|done].
  destruct (Z.eqb_spec (pi_pid r) pid); simpl; [|done].
  split; [done|]. intros q [= <-]. repeat split; try done. by exists r.
Qed.

(** [pi_drop] of a record that has exited and has no parent. *)
Lemma pi_drop_post s pid r :
  pidinfo_tbl s !! Z.to_nat (slot pid) = Some (Some r) ->
  destroy_ok r ->
  post (fun _ s' => s' = drop_state (slot pid) r s) (pi_drop pid s).
Proof.
  intros Hr [Hex Hpp]. unfold pi_drop. apply post_bind.
  unfold lock_do_i_hold. simpl. apply post_bind.
  eapply post_weaken; [by apply KASSERT_post|]. intros [] s1 [-> _].
  apply post_bind.
  eapply post_weaken; [apply tbl_read_post|]. intros e s1 (-> & Hs & He).
  rewrite Hr in He. injection He as <-.
  apply post_bind.
  eapply post_weaken; [by apply KASSERT_post|]. intros [] s1 [-> _].
  unfold pidinfo_destroy, bind, KASSERT. rewrite Hex. simpl.
  rewrite Hpp, Z.eqb_refl. simpl.
  by rewrite (tbl_write_at _ (slot pid) (Some r)) by done.
Qed.

(** *** The invariant of the loop of [pid_exit] *)

Lemma reclaimed_refl s : reclaimed s s.
Proof. split; [apply extends_ok_refl|done]. Qed.

Lemma reclaimed_lock s0 n s : reclaimed s0 s -> reclaimed s0 (with_lock n s).
Proof. done. Qed.

Lemma reclaimed_put s0 q r r' s :
  reclaimed s0 s -> pidinfo_tbl s !! Z.to_nat q = Some (Some r) ->
  reclaimed s0 (put_state q r' s).
Proof.
  intros [Hlog Hcen] Hq. split; [done|]. unfold census in *. simpl.
  by rewrite (occupied_insert_same _ _ r).
Qed.

Lemma reclaimed_drop s0 q r r' s :
  reclaimed s0 s -> pidinfo_tbl s !! Z.to_nat q = Some (Some r) ->
  destroy_ok r' -> reclaimed s0 (drop_state q r' s).
Proof.
  intros [Hlog Hcen] Hq Hr'. split; [by apply extends_ok_cons|].
  unfold census in *. simpl.
  pose proof (occupied_insert_clear _ _ _ Hq). lia.
Qed.

Lemma exit_inv_lock s0 p n s :
  exit_inv s0 p s -> exit_inv s0 p (with_lock n s).
Proof. done. Qed.

Lemma exit_inv_put s0 p q r r' s :
  exit_inv s0 p s -> pidinfo_tbl s !! Z.to_nat q = Some (Some r) ->
  pi_pid r' = pi_pid r -> pi_exited r' = pi_exited r ->
  exit_inv s0 p (put_state q r' s).
Proof.
  intros (Hlen & Hlog & Hp) Hq Hpid Hex. split; [|split].
  - simpl. by rewrite length_insert.
  - by apply (reclaimed_put _ _ r).
  - simpl. intros r2 Hr2.
    apply list_lookup_insert_Some in Hr2 as [(Heq & [= <-] & _)|[Hne Hr2]].
    + rewrite Hpid, Hex. apply Hp. by rewrite <- Heq.
    + by apply Hp.
Qed.

Lemma exit_inv_drop s0 p q r r' s :
  exit_inv s0 p s -> pidinfo_tbl s !! Z.to_nat q = Some (Some r) ->
  destroy_ok r' -> exit_inv s0 p (drop_state q r' s).
Proof.
  intros (Hlen & Hlog & Hp) Hq Hr. split; [|split].
  - simpl. by rewrite length_insert.
  - by apply (reclaimed_drop _ _ r).
  - simpl. intros r2 Hr2.
    apply list_lookup_insert_Some in Hr2 as [(_ & ? & _)|[Hne Hr2]]; [done|].
    by apply Hp.
Qed.

(** It holds once [pid_exit] has marked the record of the caller. *)
Lemma exit_inv_start s me status r0 :
  length (pidinfo_tbl s) = Z.to_nat PROCS_MAX ->
  pidinfo_tbl s !! Z.to_nat (slot me) = Some (Some r0) -> pi_pid r0 = me ->
  exit_inv s (slot me)
    (put_state (slot me) (set_exitstatus status (set_exited true r0))
       (put_state (slot me) (set_exited true r0)
          (with_lock (S (pidlock s)) s))).
Proof.
  intros Hlen Hr0 Hpid. pose proof (lookup_lt_Some _ _ _ Hr0) as Hlt.
  split; [|split].
  - simpl. by rewrite !length_insert.
  - apply (reclaimed_put _ _ (set_exited true r0)).
    + apply (reclaimed_put _ _ r0); [|done].
      apply (reclaimed_lock s (S (pidlock s)) s), reclaimed_refl.
    + simpl. by rewrite list_lookup_insert_eq.
  - simpl. intros r.
    rewrite list_lookup_insert_eq by (by rewrite length_insert).
    intros [= <-]. simpl. split; [done|]. by rewrite Hpid.
Qed.

(** [pid_detach] maintains it. *)
Lemma pid_detach_inv s0 p me x s :
  limits_ok -> exit_inv s0 p s ->
  post (fun _ s' => exit_inv s0 p s') (pid_detach me x s).
Proof.
  intros HL Hinv. pose proof Hinv as (Hlen & _ & _).
  rewrite pid_detach_eq by done.
  destruct (_ || _); [done|].
  destruct (record_of s x) as [r|] eqn:Hr; [|done].
  destruct (pi_ppid r =? INVALID_PID); [done|].
  destruct (negb _); simpl; [done|].
  apply record_of_slot in Hr as [Hr _].
  unfold detach_state. destruct (pi_exited r) eqn:Hex.
  - by apply (exit_inv_drop _ _ _ r).
  - by apply (exit_inv_put _ _ _ r).
Qed.

(** One round of the loop maintains it. *)
Lemma disown_child_inv s0 p me i s :
  limits_ok -> exit_inv s0 p s ->
  post (fun _ s' => exit_inv s0 p s') (disown_child me p i s).
Proof.
  intros HL Hinv. unfold disown_child. apply post_bind.
  eapply post_weaken; [apply pi_get_post|]. intros v s1 [-> Hv].
  destruct v as [q|]; [|done].
  apply post_bind. eapply post_weaken; [apply load_post|].
  intros c s1 (-> & Hq & Hc).
  apply post_bind. eapply post_weaken; [apply load_post|].
  intros m s1 (-> & _ & Hm).
  destruct (pi_ppid c =? pi_pid m); [|done].
  apply post_bind. eapply post_weaken; [apply lock_release_post|].
  intros [] s1 (n & _ & ->).
  apply post_bind. eapply post_weaken; [apply load_post|].
  intros c' s1 (-> & _ & _).
  apply post_bind. eapply post_weaken.
  { apply (pid_detach_inv s0 p); [done|]. by apply exit_inv_lock. }
  intros v s2 Hinv2. simpl in Hinv2.
  apply post_bind. simpl.
  eapply post_weaken; [apply store_post|].
  intros [] s3 (r & _ & Hr & ->). simpl in Hr.
  by apply (exit_inv_put _ _ _ r).
Qed.

(** *** The three places that reclaim *)

Lemma pid_detach_reclaims s me x :
  limits_ok -> length (pidinfo_tbl s) = Z.to_nat PROCS_MAX ->
  reclaims_ok s (pid_detach me x s).
Proof.
  intros HL Hlen. rewrite pid_detach_eq by done.
  destruct (_ || _); simpl; [apply reclaimed_refl|].
  destruct (record_of s x) as [r|] eqn:Hr; simpl; [|apply reclaimed_refl].
  destruct (pi_ppid r =? INVALID_PID); simpl; [apply reclaimed_refl|].
  destruct (negb _); simpl; [apply reclaimed_refl|].
  apply record_of_slot in Hr as [Hr _].
  unfold detach_state. destruct (pi_exited r) eqn:Hex; simpl.
  - by apply (reclaimed_drop _ _ r); [apply reclaimed_refl| |].
  - by apply (reclaimed_put _ _ r); [apply reclaimed_refl|].
Qed.

Lemma pid_unalloc_reclaims s me x :
  reclaims_ok s (pid_unalloc me x s).
Proof.
  assert (Hpost : post (fun _ s' => reclaimed s s') (pid_unalloc me x s));
    [|by destruct (pid_unalloc me x s)].
  unfold pid_unalloc. apply post_bind.
  eapply post_weaken; [by apply KASSERT_post|]. intros [] s1 [-> _].
  apply post_bind. simpl.
  apply post_bind. eapply post_weaken; [apply pi_get_post|].
  intros v s1 [-> Hv]. destruct v as [p|]; [|simpl; split; congruence].
  destruct (Hv p eq_refl) as (-> & Hp & r0 & Hr0 & Hpid). simpl in Hr0.
  pose proof (lookup_lt_Some _ _ _ Hr0) as Hlt.
  apply post_bind. eapply post_weaken; [apply load_post|].
  intros r s1 (-> & _ & _).
  apply post_bind. eapply post_weaken; [by apply KASSERT_post|].
  intros [] s1 [-> _].
  apply post_bind. eapply post_weaken; [apply load_post|].
  intros r' s1 (-> & _ & _).
  apply post_bind. eapply post_weaken; [by apply KASSERT_post|].
  intros [] s1 [-> _].
  apply post_bind. eapply post_weaken; [apply store_post|].
  intros [] s1 (r1 & _ & Hr1 & ->). simpl in Hr1.
  rewrite Hr0 in Hr1. injection Hr1 as <-.
  apply post_bind. eapply post_weaken; [apply store_post|].
  intros [] s1 (r2 & _ & Hr2 & ->). simpl in Hr2.
  apply post_bind. eapply post_weaken; [apply store_post|].
  intros [] s1 (r3 & _ & Hr3 & ->). simpl in Hr3.
  rewrite list_lookup_insert_eq in Hr2 by done. injection Hr2 as <-.
  rewrite list_lookup_insert_eq in Hr3 by (by rewrite length_insert).
  injection Hr3 as <-.
  set (r3 := set_ppid INVALID_PID (set_exited true (set_exitstatus 57005 r0))).
  match goal with |- post _ (bind _ _ ?st) =>
    assert (Hrec : reclaimed s st);
    [|assert (Hr3 : pidinfo_tbl st !! Z.to_nat (slot x) = Some (Some r3))] end.
  { apply (reclaimed_put _ _ (set_exited true (set_exitstatus 57005 r0))).
    - apply (reclaimed_put _ _ (set_exitstatus 57005 r0)).
      + apply (reclaimed_put _ _ r0); [|done].
        apply (reclaimed_lock s (S (pidlock s)) s), reclaimed_refl.
      + simpl. by rewrite list_lookup_insert_eq.
    - simpl. by rewrite list_lookup_insert_eq by (by rewrite length_insert). }
  { simpl. by rewrite list_lookup_insert_eq by (by rewrite !length_insert). }
  apply post_bind. eapply post_weaken.
  { by apply (pi_drop_post _ x r3). }
  intros [] s1 ->.
  eapply post_weaken; [apply lock_release_post|].
  intros [] s1 (n & _ & ->). apply reclaimed_lock.
  by apply (reclaimed_drop _ _ r3).
Qed.

Lemma post_and {A} (Q1 Q2 : A -> kstate -> Prop) r :
  post Q1 r -> post Q2 r -> post (fun a s => Q1 a s /\ Q2 a s) r.
Proof. destruct r; simpl; auto. Qed.

Lemma post_done {A} (Q : A -> kstate -> Prop) r a s :
  post Q r -> r = Done a s -> Q a s.
Proof. by intros Hpost ->. Qed.

Lemma for_loop_post_range (I : kstate -> Prop) body : forall n from s,
  (forall i s, from <= i < from + Z.of_nat n -> I s ->
               post (fun _ s' => I s') (body i s)) ->
  I s -> post (fun _ s' => I s') (for_loop n from body s).
Proof.
  induction n as [|n IH]; intros from s Hbody Hs; [done|].
  simpl. apply post_bind.
  eapply post_weaken; [apply Hbody; [lia|done]|]. intros [] s1 Hs1.
  apply IH; [|done]. intros i s2 Hi. apply Hbody. lia.
Qed.

(** *** Records that an operation leaves alone *)

Lemma untouched_put c q r' s :
  untouched c s -> Z.to_nat q <> Z.to_nat (slot (pi_pid c)) ->
  untouched c (put_state q r' s).
Proof.
  intros [Hlen Hc] Hne. split; simpl.
  - by rewrite length_insert.
  - by rewrite list_lookup_insert_ne.
Qed.

Lemma untouched_drop c q r' s :
  untouched c s -> Z.to_nat q <> Z.to_nat (slot (pi_pid c)) ->
  untouched c (drop_state q r' s).
Proof.
  intros [Hlen Hc] Hne. split; simpl.
  - by rewrite length_insert.
  - by rewrite list_lookup_insert_ne.
Qed.

(** Another record does not share the slot of [c]. *)
Lemma untouched_other c q r s :
  untouched c s -> pidinfo_tbl s !! Z.to_nat q = Some (Some r) ->
  pi_pid r <> pi_pid c -> Z.to_nat q <> Z.to_nat (slot (pi_pid c)).
Proof. intros [_ Hc] Hr Hne Heq. rewrite Heq in Hr. congruence. Qed.

Lemma pid_detach_untouched c me x s :
  limits_ok -> untouched c s -> x <> pi_pid c ->
  post (fun _ s' => untouched c s') (pid_detach me x s).
Proof.
  intros HL Hc Hx. pose proof Hc as [Hlen _].
  rewrite pid_detach_eq by done.
  destruct (_ || _); [done|].
  destruct (record_of s x) as [r|] eqn:Hr; [|done].
  destruct (pi_ppid r =? INVALID_PID); [done|].
  destruct (negb _); simpl; [done|].
  apply record_of_slot in Hr as [Hr Hpid].
  assert (Hne : Z.to_nat (slot x) <> Z.to_nat (slot (pi_pid c))).
  { apply (untouched_other c _ r s); [done..|congruence]. }
  unfold detach_state. destruct (pi_exited r).
  - by apply untouched_drop.
  - by apply untouched_put.
Qed.

Lemma disown_child_untouched c me p i s :
  limits_ok -> untouched c s -> i <> pi_pid c ->
  post (fun _ s' => untouched c s') (disown_child me p i s).
Proof.
  intros HL Hc Hi. unfold disown_child. apply post_bind.
  eapply post_weaken; [apply pi_get_post|]. intros v s1 [-> Hv].
  destruct v as [q|]; [|done].
  destruct (Hv q eq_refl) as (_ & _ & r0 & Hr0 & Hpid).
  assert (Hne : Z.to_nat q <> Z.to_nat (slot (pi_pid c))).
  { apply (untouched_other c _ r0 s); [done..|congruence]. }
  apply post_bind. eapply post_weaken; [apply load_post|].
  intros c1 s1 (-> & _ & Hc1). rewrite Hr0 in Hc1. injection Hc1 as <-.
  apply post_bind. eapply post_weaken; [apply load_post|].
  intros m s1 (-> & _ & _).
  destruct (pi_ppid r0 =? pi_pid m); [|done].
  apply post_bind. eapply post_weaken; [apply lock_release_post|].
  intros [] s1 (n & _ & ->).
  apply post_bind. eapply post_weaken; [apply load_post|].
  intros c2 s1 (-> & _ & Hc2). simpl in Hc2. rewrite Hr0 in Hc2.
  injection Hc2 as <-.
  apply post_bind. eapply post_weaken.
  { apply (pid_detach_untouched c); [done|done|congruence]. }
  intros v s2 Hc'. apply post_bind. simpl.
  eapply post_weaken; [apply store_post|].
  intros [] s3 (r & _ & _ & ->). by apply untouched_put.
Qed.

Lemma tracked_put oc q r' s :
  tracked oc s ->
  (forall c, oc = Some c -> Z.to_nat q <> Z.to_nat (slot (pi_pid c))) ->
  tracked oc (put_state q r' s).
Proof.
  destruct oc as [c|]; [|done]. intros Hc Hne. by apply untouched_put, Hne.
Qed.

Lemma tracked_drop oc q r' s :
  tracked oc s ->
  (forall c, oc = Some c -> Z.to_nat q <> Z.to_nat (slot (pi_pid c))) ->
  tracked oc (drop_state q r' s).
Proof.
  destruct oc as [c|]; [|done]. intros Hc Hne. by apply untouched_drop, Hne.
Qed.

(** [pid_exit]: every record it frees is fit to be destroyed, and it
    leaves alone a record of another pid that the loop over the children
    does not visit. *)
Lemma pid_exit_post s me status dodetach oc :
  limits_ok -> length (pidinfo_tbl s) = Z.to_nat PROCS_MAX ->
  tracked oc s ->
  (forall c, oc = Some c ->
     pi_pid c <> me /\ (dodetach = true -> ~ PID_MIN <= pi_pid c < PID_MAX)) ->
  post (fun _ s' => reclaimed s s' /\ tracked oc s')
       (pid_exit me status dodetach s).
Proof.
  intros HL Hlen Htr Hoc.
  unfold pid_exit. apply post_bind. simpl.
  apply post_bind. eapply post_weaken; [apply pi_get_post|].
  intros v s1 [-> Hv]. destruct v as [p|]; [|simpl; split; congruence].
  destruct (Hv p eq_refl) as (Hslot & Hp & r0 & Hr0 & Hpid). simpl in Hr0.
  pose proof (lookup_lt_Some _ _ _ Hr0) as Hlt.
  assert (Hne : forall c, oc = Some c ->
                Z.to_nat p <> Z.to_nat (slot (pi_pid c))).
  { intros c ->. destruct (Hoc c eq_refl) as [Hcme _].
    apply (untouched_other c _ r0 s); [done..|congruence]. }
  apply post_bind. eapply post_weaken; [apply store_post|].
  intros [] s1 (r1 & _ & Hr1 & ->). simpl in Hr1.
  rewrite Hr0 in Hr1. injection Hr1 as <-.
  apply post_bind. eapply post_weaken; [apply store_post|].
  intros [] s1 (r2 & _ & Hr2 & ->). simpl in Hr2.
  rewrite list_lookup_insert_eq in Hr2 by done. injection Hr2 as <-.
  match goal with |- post _ (bind _ _ ?st) =>
    assert (Hinv : exit_inv s p st);
    [|assert (Hkeep : tracked oc st)] end.
  { subst p. by apply exit_inv_start. }
  { apply tracked_put; [apply tracked_put|]; done. }
  apply post_bind. eapply post_weaken.
  { instantiate (1 := fun _ s' => exit_inv s p s' /\ tracked oc s').
    destruct dodetach; [|done].
    apply (for_loop_post_range
             (fun s' => exit_inv s p s' /\ tracked oc s')); [|done].
    intros i s1 Hi [Hinv1 Hkeep1]. apply post_and.
    - by apply disown_child_inv.
    - destruct oc as [c|].
      + apply disown_child_untouched; [done..|].
        destruct (Hoc c eq_refl) as [_ Hout]. specialize (Hout eq_refl). lia.
      + eapply post_weaken; [by apply disown_child_inv|]. done. }
  intros [] s1 [(Hlen1 & Hlog1 & Hp1) Hkeep1].
  apply post_bind. simpl.
  apply post_bind. eapply post_weaken; [apply load_post|].
  intros m s2 (-> & _ & Hm).
  destruct (Hp1 m Hm) as [Hmex Hmslot].
  apply post_bind. eapply post_weaken.
  { instantiate (1 := fun _ s' => reclaimed s s' /\ tracked oc s').
    destruct (detached m); [|done].
    apply post_bind. eapply post_weaken; [apply store_post|].
    intros [] s2 (r3 & _ & Hr3 & ->). rewrite Hm in Hr3. injection Hr3 as <-.
    apply post_bind. eapply post_weaken; [apply load_post|].
    intros m' s2 (-> & _ & Hm'). simpl in Hm'.
    rewrite list_lookup_insert_eq in Hm' by (by eapply lookup_lt_Some).
    injection Hm' as <-.
    eapply post_weaken.
    { apply (pi_drop_post _ _ (set_ppid INVALID_PID m)).
      - simpl. rewrite Hmslot.
        by rewrite list_lookup_insert_eq by (by eapply lookup_lt_Some).
      - by split. }
    intros [] s2 ->. simpl pi_pid. rewrite Hmslot. split.
    - apply (reclaimed_drop _ _ (set_ppid INVALID_PID m)); [|simpl|by split].
      + by apply (reclaimed_put _ _ m).
      + by rewrite list_lookup_insert_eq by (by eapply lookup_lt_Some).
    - apply tracked_drop; [apply tracked_put|]; done. }
  intros [] s2 [Hlog2 Hkeep2].
  eapply post_weaken; [apply lock_release_post|].
  intros [] s3 (n & _ & ->). split; [done|].
  by destruct oc.
Qed.

Lemma pid_exit_reclaims s me status dodetach :
  limits_ok -> length (pidinfo_tbl s) = Z.to_nat PROCS_MAX ->
  reclaims_ok s (pid_exit me status dodetach s).
Proof.
  intros HL Hlen.
  pose proof (pid_exit_post s me status dodetach None HL Hlen I) as Hpost.
  destruct (pid_exit me status dodetach s); simpl in *; [|by apply Hpost..].
  by apply Hpost.
Qed.

(** C1: in each of the operations that reclaim -- [pid_unalloc],
    [pid_detach] (of a child that has exited) and [pid_exit] (of a thread
    that is detached, and of the children it disowns) -- every record
    handed to [pidinfo_destroy] has [pi_exited] true and [pi_ppid]
    equal to [INVALID_PID] at that moment: neither assertion of
    [pidinfo_destroy] ever fails, and when the call returns, as many
    records have left the table as were freed, and each record freed
    satisfied both conditions when it was freed. *)
Theorem reclaim_only_exited_orphans s me :
  limits_ok -> length (pidinfo_tbl s) = Z.to_nat PROCS_MAX ->
  (forall theirpid, reclaims_ok s (pid_unalloc me theirpid s)) /\
  (forall childpid, reclaims_ok s (pid_detach me childpid s)) /\
  (forall status dodetach,
     reclaims_ok s (pid_exit me status dodetach s)).
Proof.
  intros HL Hlen. split; [|split].
  - intros theirpid. apply pid_unalloc_reclaims.
  - intros childpid. by apply pid_detach_reclaims.
  - intros status dodetach. by apply pid_exit_reclaims.
Qed.

(** C3 (what the code does): the loop of [pid_exit] stops before
    [PID_MAX], so whatever record the table holds for pid [PID_MAX] is
    left exactly as it was when another thread exits -- also when that
    thread is its parent and asked for its children to be detached. *)
Theorem exit_leaves_pid_max_record s me status dodetach c s' :
  limits_ok -> length (pidinfo_tbl s) = Z.to_nat PROCS_MAX ->
  record_of s PID_MAX = Some c -> me <> PID_MAX ->
  pid_exit me status dodetach s = Done tt s' ->
  record_of s' PID_MAX = Some c.
Proof.
  intros HL Hlen Hc Hme Hret.
  apply record_of_slot in Hc as [Hc Hcpid].
  assert (Hpost : post (fun _ s' => reclaimed s s' /\ tracked (Some c) s')
                       (pid_exit me status dodetach s)).
  { apply pid_exit_post; [done|done|split; [done|by rewrite Hcpid]|].
    intros c' [= <-]. split; [congruence|]. lia. }
  destruct (post_done _ _ _ _ Hpost Hret) as [_ [_ Hc']].
  unfold record_of. rewrite <- Hcpid, Hc'. by rewrite Z.eqb_refl.
Qed.

End Reclaim.


(** ** The invariant is kept *)

Section Invariant.
Context `{L : limits}.

Lemma wf_lock n s : wf s -> wf (with_lock n s).
Proof. by intros []. Qed.

Lemma wf_with_nextpid n s :
  wf s -> PID_MIN <= n <= PID_MAX -> wf (with_nextpid n s).
Proof. by intros [] Hn. Qed.

(** A record may be replaced by one of the same pid that keeps its
    parent or has none. *)
Lemma wf_put q r r' s :
  wf s -> pidinfo_tbl s !! Z.to_nat q = Some (Some r) ->
  pi_pid r' = pi_pid r ->
  pi_ppid r' = pi_ppid r \/ pi_ppid r' = INVALID_PID ->
  wf (put_state q r' s).
Proof.
  intros [Hlen Hslots Hcount Hnext] Hq Hpid Hpp. split; simpl.
  - by rewrite length_insert.
  - intros i r2 Hi.
    apply list_lookup_insert_Some in Hi as [(<- & [= <-] & _)|[Hne Hi]];
      [|by apply Hslots].
    destruct (Hslots _ _ Hq) as (H0 & Hs & Hkind). unfold slot_ok.
    rewrite Hpid. repeat split; try done.
    destruct Hkind as [?|[? ?]]; [by left|right]. split; [done|].
    destruct Hpp; congruence.
  - rewrite Hcount. unfold live_count. simpl.
    by rewrite (occupied_insert_same _ _ r).
  - done.
Qed.

Lemma wf_drop q r r' s :
  limits_ok -> wf s -> pidinfo_tbl s !! Z.to_nat q = Some (Some r) ->
  wf (drop_state q r' s).
Proof.
  intros HL Hwf Hq. pose proof (live_count_le s HL Hwf) as Hle.
  pose proof (procs_int HL) as Hint.
  destruct Hwf as [Hlen Hslots Hcount Hnext].
  pose proof (occupied_insert_clear _ _ _ Hq) as Hocc.
  split; simpl.
  - by rewrite length_insert.
  - intros i r2 Hi.
    apply list_lookup_insert_Some in Hi as [(_ & ? & _)|[Hne Hi]]; [done|].
    by apply Hslots.
  - unfold live_count in *. simpl. rewrite int_wrap_small; lia.
  - done.
Qed.

Lemma pid_detach_wf s me x :
  limits_ok -> wf s -> post (fun _ s' => wf s') (pid_detach me x s).
Proof.
  intros HL Hwf. rewrite pid_detach_eq by (done || apply Hwf).
  destruct (_ || _); [done|].
  destruct (record_of s x) as [r|] eqn:Hr; [|done].
  destruct (pi_ppid r =? INVALID_PID); [done|].
  destruct (negb _); simpl; [done|].
  apply record_of_slot in Hr as [Hr _].
  unfold detach_state. destruct (pi_exited r).
  - by apply (wf_drop _ r).
  - apply (wf_put _ r); [done..|by right].
Qed.

Lemma disown_child_wf s me p i :
  limits_ok -> wf s -> post (fun _ s' => wf s') (disown_child me p i s).
Proof.
  intros HL Hwf. unfold disown_child. apply post_bind.
  eapply post_weaken; [apply pi_get_post|]. intros v s1 [-> Hv].
  destruct v as [q|]; [|done].
  apply post_bind. eapply post_weaken; [apply load_post|].
  intros c s1 (-> & _ & _).
  apply post_bind. eapply post_weaken; [apply load_post|].
  intros m s1 (-> & _ & _).
  destruct (pi_ppid c =? pi_pid m); [|done].
  apply post_bind. eapply post_weaken; [apply lock_release_post|].
  intros [] s1 (n & _ & ->).
  apply post_bind. eapply post_weaken; [apply load_post|].
  intros c' s1 (-> & _ & _).
  apply post_bind. eapply post_weaken.
  { apply pid_detach_wf; [done|]. by apply wf_lock. }
  intros v s2 Hwf2. apply post_bind. simpl.
  eapply post_weaken; [apply store_post|].
  intros [] s3 (r & _ & Hr & ->). simpl in Hr.
  apply (wf_put _ r); [by apply (wf_lock _ s2)|done|done|by left].
Qed.

Lemma pid_exit_wf s me status dodetach :
  limits_ok -> wf s ->
  post (fun _ s' => wf s') (pid_exit me status dodetach s).
Proof.
  intros HL Hwf.
  unfold pid_exit. apply post_bind. simpl.
  apply post_bind. eapply post_weaken; [apply pi_get_post|].
  intros v s1 [-> Hv]. destruct v as [p|]; [|simpl; split; congruence].
  destruct (Hv p eq_refl) as (Hslot & Hp & r0 & Hr0 & Hpid). simpl in Hr0.
  pose proof (lookup_lt_Some _ _ _ Hr0) as Hlt.
  apply post_bind. eapply post_weaken; [apply store_post|].
  intros [] s1 (r1 & _ & Hr1 & ->). simpl in Hr1.
  rewrite Hr0 in Hr1. injection Hr1 as <-.
  assert (Hwf1 : wf (put_state p (set_exited true r0)
                       (with_lock (S (pidlock s)) s))).
  { apply (wf_put _ r0); [by apply wf_lock|done|done|by left]. }
  apply post_bind. eapply post_weaken; [apply store_post|].
  intros [] s1 (r2 & _ & Hr2 & ->).
  pose proof Hr2 as Hr2'. simpl in Hr2'.
  rewrite list_lookup_insert_eq in Hr2' by done. injection Hr2' as <-.
  match goal with |- post _ (bind _ _ ?st) =>
    assert (Hinv : exit_inv s p st); [|assert (Hwf2 : wf st)] end.
  { subst p. apply exit_inv_start; [apply Hwf|done..]. }
  { by apply (wf_put _ (set_exited true r0)); [| | |left]. }
  apply post_bind. eapply post_weaken.
  { instantiate (1 := fun _ s' => exit_inv s p s' /\ wf s').
    destruct dodetach; [|done].
    apply (for_loop_post (fun s' => exit_inv s p s' /\ wf s')); [|done].
    intros i s1 [Hinv1 Hwf3]. apply post_and.
    - by apply disown_child_inv.
    - by apply disown_child_wf. }
  intros [] s1 [(Hlen1 & Hlog1 & Hp1) Hwf3].
  apply post_bind. simpl.
  apply post_bind. eapply post_weaken; [apply load_post|].
  intros m s2 (-> & _ & Hm).
  destruct (Hp1 m Hm) as [Hmex Hmslot].
  apply post_bind. eapply post_weaken.
  { instantiate (1 := fun _ s' => wf s').
    destruct (detached m); [|done].
    apply post_bind. eapply post_weaken; [apply store_post|].
    intros [] s2 (r3 & _ & Hr3 & ->). rewrite Hm in Hr3. injection Hr3 as <-.
    assert (Hwf4 : wf (put_state p (set_ppid INVALID_PID m) s1)).
    { apply (wf_put _ m); [done|done|done|by right]. }
    apply post_bind. eapply post_weaken; [apply load_post|].
    intros m' s2 (-> & _ & Hm'). simpl in Hm'.
    rewrite list_lookup_insert_eq in Hm' by (by eapply lookup_lt_Some).
    injection Hm' as <-.
    eapply post_weaken.
    { apply (pi_drop_post _ _ (set_ppid INVALID_PID m)).
      - simpl. rewrite Hmslot.
        by rewrite list_lookup_insert_eq by (by eapply lookup_lt_Some).
      - by split. }
    intros [] s2 ->. simpl pi_pid. rewrite Hmslot.
    apply (wf_drop _ (set_ppid INVALID_PID m)); [done..|].
    simpl. by rewrite list_lookup_insert_eq by (by eapply lookup_lt_Some). }
  intros [] s2 Hwf5.
  eapply post_weaken; [apply lock_release_post|].
  intros [] s3 (n & _ & ->). by apply wf_lock.
Qed.

Lemma pid_unalloc_wf s me x :
  limits_ok -> wf s -> post (fun _ s' => wf s') (pid_unalloc me x s).
Proof.
  intros HL Hwf.
  unfold pid_unalloc. apply post_bind.
  eapply post_weaken; [by apply KASSERT_post|]. intros [] s1 [-> _].
  apply post_bind. simpl.
  apply post_bind. eapply post_weaken; [apply pi_get_post|].
  intros v s1 [-> Hv]. destruct v as [p|]; [|simpl; split; congruence].
  destruct (Hv p eq_refl) as (-> & Hp & r0 & Hr0 & Hpid). simpl in Hr0.
  pose proof (lookup_lt_Some _ _ _ Hr0) as Hlt.
  apply post_bind. eapply post_weaken; [apply load_post|].
  intros r s1 (-> & _ & _).
  apply post_bind. eapply post_weaken; [by apply KASSERT_post|].
  intros [] s1 [-> _].
  apply post_bind. eapply post_weaken; [apply load_post|].
  intros r' s1 (-> & _ & _).
  apply post_bind. eapply post_weaken; [by apply KASSERT_post|].
  intros [] s1 [-> _].
  apply post_bind. eapply post_weaken; [apply store_post|].
  intros [] s1 (r1 & _ & Hr1 & ->). simpl in Hr1.
  rewrite Hr0 in Hr1. injection Hr1 as <-.
  apply post_bind. eapply post_weaken; [apply store_post|].
  intros [] s1 (r2 & _ & Hr2 & ->). simpl in Hr2.
  apply post_bind. eapply post_weaken; [apply store_post|].
  intros [] s1 (r3 & _ & Hr3 & ->). simpl in Hr3.
  rewrite list_lookup_insert_eq in Hr2 by done. injection Hr2 as <-.
  rewrite list_lookup_insert_eq in Hr3 by (by rewrite length_insert).
  injection Hr3 as <-.
  set (r3 := set_ppid INVALID_PID (set_exited true (set_exitstatus 57005 r0))).
  match goal with |- post _ (bind _ _ ?st) => assert (Hwf3 : wf st) end.
  { apply (wf_put _ (set_exited true (set_exitstatus 57005 r0))); [| | |by right].
    - apply (wf_put _ (set_exitstatus 57005 r0)); [| | |by left].
      + apply (wf_put _ r0); [by apply wf_lock|done|done|by left].
      + simpl. by rewrite list_lookup_insert_eq.
      + done.
    - simpl. by rewrite list_lookup_insert_eq by (by rewrite length_insert).
    - done. }
  apply post_bind. eapply post_weaken.
  { apply (pi_drop_post _ x r3).
    - simpl. by rewrite list_lookup_insert_eq by (by rewrite !length_insert).
    - by split. }
  intros [] s1 ->.
  eapply post_weaken; [apply lock_release_post|].
  intros [] s1 (n & _ & ->). apply wf_lock.
  apply (wf_drop _ r3); [done..|].
  simpl. by rewrite list_lookup_insert_eq by (by rewrite !length_insert).
Qed.

Lemma pid_alloc_wf s me km cv :
  limits_ok -> wf s -> post (fun _ s' => wf s') (pid_alloc me km cv s).
Proof.
  intros HL Hwf. destruct (Z.eq_dec me INVALID_PID) as [->|Hme].
  { unfold pid_alloc, bind, KASSERT. rewrite Z.eqb_refl. simpl.
    split; congruence. }
  rewrite pid_alloc_eq by done.
  destruct (nprocs s =? PROCS_MAX); [done|].
  destruct (probe _ _ _) as [pid|] eqn:Hprobe; [|simpl; split; congruence].
  destruct (probe_sound _ _ _ _ HL (wf_next s Hwf) Hprobe) as [Hpid Hfree].
  destruct km as [blk|]; [destruct cv|]; simpl.
  - by apply alloc_state_wf.
  - by apply wf_with_nextpid.
  - by apply wf_with_nextpid.
Qed.

(** The loop of [pid_bootstrap] over slots that are NULL already. *)
Lemma clear_loop_eq n : forall from s,
  0 <= from ->
  (forall i : nat, (Z.to_nat from <= i < Z.to_nat from + n)%nat ->
                   pidinfo_tbl s !! i = Some None) ->
  for_loop n from (fun i => tbl_write i None) s = Done tt s.
Proof.
  induction n as [|n IH]; intros from s Hfrom Hnull; [done|].
  simpl. unfold bind.
  rewrite (tbl_write_at s from None) by (done || apply Hnull; lia).
  simpl. rewrite list_insert_id by (apply Hnull; lia).
  replace (with_tbl (pidinfo_tbl s) s) with s by (by destruct s).
  apply IH; [lia|]. intros i Hi. apply Hnull. lia.
Qed.

Lemma occupied_replicate n : occupied (replicate n None) = 0%nat.
Proof. induction n as [|n IH]; [done|]. simpl. exact IH. Qed.

(** [pid_bootstrap] establishes the invariant. *)
Lemma pid_bootstrap_wf blk :
  limits_ok ->
  pid_bootstrap true (Some blk) true zeroed = Done tt (boot_state blk) /\
  wf (boot_state blk).
Proof.
  intros HL. pose proof (procs_pos HL) as HP.
  destruct (bootup_slot HL) as [Hb0 Hb1]. pose proof (bootup_valid HL) as Hbv.
  pose proof (pid_range_wide HL) as Hwide. pose proof (procs_int HL) as Hint.
  assert (Hnull : replicate (Z.to_nat PROCS_MAX) (@None pidinfo)
                  !! Z.to_nat BOOTUP_PID = Some None).
  { apply lookup_replicate_2. lia. }
  split.
  - unfold pid_bootstrap, bind. simpl.
    rewrite clear_loop_eq; [|done|].
    2:{ intros i Hi. simpl. apply lookup_replicate_2. lia. }
    simpl. unfold pidinfo_create, bind, KASSERT.
    destruct (Z.eqb_spec BOOTUP_PID INVALID_PID); [done|]. simpl.
    rewrite (tbl_write_at _ _ None) by done. simpl.
    erewrite tbl_read_at; [|done|].
    2:{ simpl. apply list_lookup_insert_eq. rewrite length_replicate. lia. }
    done.
  - split; simpl.
    + by rewrite length_insert, length_replicate.
    + intros i r Hi.
      apply list_lookup_insert_Some in Hi as [(<- & [= <-] & _)|[_ Hi]].
      * unfold slot_ok, created, slot. simpl.
        rewrite Z.rem_small by done. repeat split; [lia|lia|by right].
      * apply lookup_replicate in Hi as [? _]. done.
    + unfold live_count. simpl.
      rewrite occupied_insert_free by done. rewrite occupied_replicate. lia.
    + lia.
Qed.

End Invariant.

(** ** The lock *)

Section Lock.
Context `{L : limits}.

Lemma tbl_read_pure s i e s' : tbl_read i s = Done e s' -> s' = s.
Proof.
  unfold tbl_read. destruct (i <? 0); [done|].
  destruct (pidinfo_tbl s !! Z.to_nat i); [|done]. by intros [= _ <-].
Qed.

Lemma load_pure s p r s' : load p s = Done r s' -> s' = s.
Proof.
  unfold load, bind. destruct (tbl_read p s) as [e s1| |] eqn:Hread;
    simpl; try done.
  apply tbl_read_pure in Hread as ->.
  destruct e; [|done]. by intros [= _ <-].
Qed.

Lemma pi_get_pure s pid v s' : pi_get pid s = Done v s' -> s' = s.
Proof.
  unfold pi_get, bind, KASSERT, lock_do_i_hold.
  destruct (0 <=? pid); [|done]. simpl.
  destruct (negb (pid =? INVALID_PID)); [|done]. simpl.
  destruct (negb (pidlock s =? 0)%nat); [|done]. simpl.
  destruct (tbl_read (slot pid) s) as [e s1| |] eqn:Hread; simpl; try done.
  apply tbl_read_pure in Hread as ->.
  destruct e as [r|]; [destruct (negb (pi_pid r =? pid))|]; by intros [= _ <-].
Qed.

Lemma returns_bind {A B} (m : M A) (f : A -> M B) s (Q : B -> kstate -> Prop) :
  returns (fun a s1 => returns Q (f a s1)) (m s) -> returns Q (bind m f s).
Proof. unfold bind. by destruct (m s). Qed.

Lemma returns_weaken {A} (Q Q' : A -> kstate -> Prop) r :
  returns Q r -> (forall a s, Q a s -> Q' a s) -> returns Q' r.
Proof. destruct r; simpl; auto. Qed.

Lemma post_returns {A} (Q : A -> kstate -> Prop) r : post Q r -> returns Q r.
Proof. by destruct r. Qed.

Lemma for_loop_returns (I : kstate -> Prop) body :
  (forall i s, I s -> returns (fun _ s' => I s') (body i s)) ->
  forall n from s, I s -> returns (fun _ s' => I s') (for_loop n from body s).
Proof.
  intros Hbody. induction n as [|n IH]; intros from s Hs; [done|].
  simpl. apply returns_bind.
  eapply returns_weaken; [by apply Hbody|]. intros [] s1 Hs1. by apply IH.
Qed.

Lemma store_lock s p f : returns (fun _ s' => same_lock s s') (store p f s).
Proof.
  eapply returns_weaken; [apply post_returns, store_post|].
  intros [] s' (r & _ & _ & ->). split; simpl; [done|by rewrite length_insert].
Qed.

Lemma load_lock s p : returns (fun _ s' => s' = s) (load p s).
Proof.
  eapply returns_weaken; [apply post_returns, load_post|].
  by intros r s' (-> & _).
Qed.

Lemma pi_get_lock s pid : returns (fun _ s' => s' = s) (pi_get pid s).
Proof.
  eapply returns_weaken; [apply post_returns, pi_get_post|].
  by intros r s' (-> & _).
Qed.

Lemma pi_drop_lock s pid : returns (fun _ s' => same_lock s s') (pi_drop pid s).
Proof.
  unfold pi_drop, bind, lock_do_i_hold, KASSERT, tbl_read. simpl.
  destruct (negb _); [|done]. simpl.
  destruct (slot pid <? 0) eqn:Hneg; [done|].
  destruct (pidinfo_tbl s !! Z.to_nat (slot pid)) as [e|] eqn:He; [|done].
  simpl. destruct e as [r|]; [|done].
  destruct (pi_pid r =? pid); [|done]. simpl.
  unfold pidinfo_destroy, bind, KASSERT.
  destruct (pi_exited r); [|done]. simpl.
  destruct (pi_ppid r =? INVALID_PID); [|done]. simpl.
  unfold tbl_write. simpl. rewrite Hneg, He. simpl.
  split; simpl; [done|by rewrite length_insert].
Qed.

Lemma pid_detach_lock s me x :
  limits_ok -> length (pidinfo_tbl s) = Z.to_nat PROCS_MAX ->
  returns (fun _ s' => same_lock s s') (pid_detach me x s).
Proof.
  intros HL Hlen. rewrite pid_detach_eq by done.
  destruct (_ || _); [done|].
  destruct (record_of s x) as [r|]; [|done].
  destruct (pi_ppid r =? INVALID_PID); [done|].
  destruct (negb _); simpl; [done|].
  unfold detach_state.
  destruct (pi_exited r); split; simpl; by rewrite ?length_insert.
Qed.

Lemma disown_child_lock s me p i :
  limits_ok -> length (pidinfo_tbl s) = Z.to_nat PROCS_MAX ->
  returns (fun _ s' => same_lock s s') (disown_child me p i s).
Proof.
  intros HL Hlen. unfold disown_child. apply returns_bind.
  eapply returns_weaken; [apply pi_get_lock|]. intros v s1 ->.
  destruct v as [q|]; [|done].
  apply returns_bind. eapply returns_weaken; [apply load_lock|].
  intros c s1 ->.
  apply returns_bind. eapply returns_weaken; [apply load_lock|].
  intros m s1 ->.
  destruct (pi_ppid c =? pi_pid m); [|done].
  apply returns_bind.
  eapply returns_weaken; [apply post_returns, lock_release_post|].
  intros [] s1 (n & Hn & ->).
  apply returns_bind. eapply returns_weaken; [apply load_lock|].
  intros c' s1 ->.
  apply returns_bind. eapply returns_weaken; [by apply pid_detach_lock|].
  intros v s2 [Hlock2 Hlen2]. simpl in *.
  apply returns_bind. simpl.
  eapply returns_weaken; [apply store_lock|].
  intros [] s3 [Hlock3 Hlen3]. simpl in *. split; congruence.
Qed.

(** The five lifecycle operations give the lock back: whenever one of
    them returns, the lock is held as often as before the call. *)
Lemma lifecycle_releases_lock s me :
  limits_ok -> wf s ->
  (forall km cv, returns (fun _ s' => same_lock s s') (pid_alloc me km cv s)) /\
  (forall x, returns (fun _ s' => same_lock s s') (pid_unalloc me x s)) /\
  (forall x, returns (fun _ s' => same_lock s s') (pid_detach me x s)) /\
  (forall status dodetach,
     returns (fun _ s' => same_lock s s') (pid_exit me status dodetach s)) /\
  (forall t status flags v s',
     pid_join me t status flags s = Done v s' -> s' = s).
Proof.
  intros HL Hwf. pose proof (wf_len s Hwf) as Hlen.
  split; [|split; [|split; [|split]]].
  - intros km cv. destruct (Z.eq_dec me INVALID_PID) as [->|Hme].
    { unfold pid_alloc, bind, KASSERT. by rewrite Z.eqb_refl. }
    rewrite pid_alloc_eq by done.
    destruct (nprocs s =? PROCS_MAX); [done|].
    destruct (probe _ _ _); [|done].
    destruct km as [blk|]; [destruct cv|]; split; simpl;
      by rewrite ?length_insert.
  - intros x. unfold pid_unalloc. apply returns_bind.
    eapply returns_weaken; [by apply post_returns, KASSERT_post|].
    intros [] s1 [-> _].
    apply returns_bind. simpl.
    apply returns_bind. eapply returns_weaken; [apply pi_get_lock|].
    intros v s1 ->. destruct v as [p|]; [|done].
    apply returns_bind. eapply returns_weaken; [apply load_lock|].
    intros r s1 ->. apply returns_bind.
    eapply returns_weaken; [by apply post_returns, KASSERT_post|].
    intros [] s1 [-> _].
    apply returns_bind. eapply returns_weaken; [apply load_lock|].
    intros r' s1 ->. apply returns_bind.
    eapply returns_weaken; [by apply post_returns, KASSERT_post|].
    intros [] s1 [-> _].
    apply returns_bind. eapply returns_weaken; [apply store_lock|].
    intros [] s1 [Hk1 Hl1].
    apply returns_bind. eapply returns_weaken; [apply store_lock|].
    intros [] s2 [Hk2 Hl2].
    apply returns_bind. eapply returns_weaken; [apply store_lock|].
    intros [] s3 [Hk3 Hl3].
    apply returns_bind. eapply returns_weaken; [apply pi_drop_lock|].
    intros [] s4 [Hk4 Hl4].
    eapply returns_weaken; [apply post_returns, lock_release_post|].
    intros [] s5 (n & Hn & ->). simpl in *. split; simpl; [lia|congruence].
  - intros x. by apply pid_detach_lock.
  - intros status dodetach. unfold pid_exit. apply returns_bind. simpl.
    apply returns_bind. eapply returns_weaken; [apply pi_get_lock|].
    intros v s1 ->. destruct v as [p|]; [|done].
    apply returns_bind. eapply returns_weaken; [apply store_lock|].
    intros [] s1 [Hk1 Hl1].
    apply returns_bind. eapply returns_weaken; [apply store_lock|].
    intros [] s2 [Hk2 Hl2]. simpl in *.
    apply returns_bind. eapply returns_weaken.
    { instantiate (1 := fun _ s' => same_lock s2 s').
      destruct dodetach; [|done].
      apply (for_loop_returns (fun s' => same_lock s2 s')); [|done].
      intros i s3 [Hk3 Hl3].
      eapply returns_weaken; [apply disown_child_lock; [done|congruence]|].
      intros [] s4 [Hk4 Hl4]. split; congruence. }
    intros [] s3 [Hk3 Hl3].
    apply returns_bind. simpl.
    apply returns_bind. eapply returns_weaken; [apply load_lock|].
    intros m s4 ->.
    apply returns_bind. eapply returns_weaken.
    { instantiate (1 := fun _ s' => same_lock s3 s').
      destruct (detached m); [|done].
      apply returns_bind. eapply returns_weaken; [apply store_lock|].
      intros [] s4 [Hk4 Hl4].
      apply returns_bind. eapply returns_weaken; [apply load_lock|].
      intros m' s5 ->.
      eapply returns_weaken; [apply pi_drop_lock|].
      intros [] s5 [Hk5 Hl5]. split; congruence. }
    intros [] s4 [Hk4 Hl4].
    eapply returns_weaken; [apply post_returns, lock_release_post|].
    intros [] s5 (n & Hn & ->). split; simpl; [lia|congruence].
  - intros t status flags v s'. unfold pid_join, bind. simpl.
    destruct (_ || _); simpl; [intros [= _ <-]; by destruct s|].
    destruct (pi_get t _) as [q s1| |] eqn:Hget; simpl; try done.
    apply pi_get_pure in Hget as ->.
    destruct q as [p|]; simpl; [|intros [= _ <-]; by destruct s].
    destruct (load p _) as [r s1| |] eqn:Hload; simpl; try done.
    apply load_pure in Hload as ->.
    destruct (pi_ppid r =? INVALID_PID); simpl; [intros [= _ <-]; by destruct s|].
    destruct (t =? me); simpl; [intros [= _ <-]; by destruct s|].
    destruct (load p _) as [r' s1| |] eqn:Hload; simpl; try done.
    apply load_pure in Hload as ->.
    destruct (negb (pi_exited r')); simpl.
    + destruct (flags =? WNOHANG); simpl; [|done].
      destruct status; simpl; [|done]. intros [= _ <-]. by destruct s.
    + destruct status; simpl; [|intros [= _ <-]; by destruct s].
      destruct (load p _) as [r'' s1| |] eqn:Hload; simpl; try done.
      apply load_pure in Hload as ->. simpl.
      intros [= _ <-]. by destruct s.
Qed.

(** C9 (what the helper does): whenever [target_parent] returns, it
    has taken the table lock twice more and released it never; the
    state is otherwise the one it started from. *)
Theorem target_parent_keeps_lock s targetpid parentpid v s' :
  target_parent targetpid parentpid s = Done v s' ->
  s' = with_lock (S (S (pidlock s))) s.
Proof.
  unfold target_parent, bind. simpl.
  destruct (pi_get targetpid _) as [q s1| |] eqn:Hget; simpl; try done.
  apply pi_get_pure in Hget as ->.
  destruct q as [p|]; [|done].
  destruct (load p _) as [r s1| |] eqn:Hload; simpl; try done.
  apply load_pure in Hload as ->.
  destruct (pi_ppid r =? parentpid); by intros [= _ <-].
Qed.

End Lock.

(** * Further properties of the operations *)

(** ** The operations as functions of the state *)

Section Functions.
Context `{L : limits}.

Lemma load_empty s p :
  0 <= p -> pidinfo_tbl s !! Z.to_nat p = Some None ->
  load p s = Abort DanglingDeref.
Proof.
  intros Hp He. unfold load, bind. by rewrite (tbl_read_at s p None).
Qed.

(** [pid_exit] without [dodetach]. *)
Lemma pid_exit_nodetach_eq s me status :
  limits_ok -> length (pidinfo_tbl s) = Z.to_nat PROCS_MAX ->
  0 <= me -> me <> INVALID_PID ->
  pid_exit me status false s
  = match record_of s me with
    | None => Abort (KAssert 384)
    | Some r => Done tt (exit_state me status r s)
    end.
Proof.
  intros HL Hlen Hme Hinv. pose proof (procs_pos HL) as HP.
  unfold pid_exit, bind. simpl.
  change (KState _ _ _ _ _) with (with_lock (S (pidlock s)) s).
  rewrite pi_get_eq by done. rewrite record_of_with_lock.
  destruct (record_of s me) as [r|] eqn:Hr; simpl; [|done].
  destruct (record_of_slot s me r Hr) as [Hslot Hpid].
  destruct (slot_nonneg me HP Hme) as [Hs0 Hs1].
  assert (Hin : (Z.to_nat (slot me) < length (pidinfo_tbl s))%nat) by lia.
  rewrite (store_in _ (slot me) r) by done. simpl.
  erewrite store_in; [|done|by apply put_state_lookup]. simpl.
  rewrite put_put_state. unfold cv_broadcast. simpl.
  erewrite load_at; [|done|by apply put_state_lookup]. simpl.
  unfold exit_state. destruct (detached r) eqn:Hdet; simpl.
  - erewrite store_in; [|done|by apply put_state_lookup]. simpl.
    rewrite put_put_state.
    erewrite load_at; [|done|by apply put_state_lookup]. simpl.
    rewrite Hpid.
    erewrite pi_drop_eq; [| done | done | by apply put_state_lookup | done..].
    simpl. unfold drop_state, put_state, with_tbl. simpl.
    by rewrite list_insert_insert_eq.
  - by destruct s.
Qed.

(** [pid_unalloc]. *)
Lemma pid_unalloc_eq s me x :
  limits_ok -> length (pidinfo_tbl s) = Z.to_nat PROCS_MAX ->
  pid_unalloc me x s
  = if negb ((PID_MIN <=? x) && (x <=? PID_MAX)) then Abort (KAssert 291)
    else match record_of s x with
         | None => Abort (KAssert 296)
         | Some r =>
             if pi_exited r then Abort (KAssert 297)
             else if negb (pi_ppid r =? me) then Abort (KAssert 298)
             else Done tt (drop_state (slot x) (unalloc_record r) s)
         end.
Proof.
  intros HL Hlen. pose proof (procs_pos HL) as HP.
  pose proof (pid_min_nonneg HL) as Hmin. pose proof (invalid_outside HL) as Hout.
  unfold pid_unalloc, bind, KASSERT.
  destruct ((PID_MIN <=? x) && (x <=? PID_MAX)) eqn:Hrange; simpl; [|done].
  assert (0 <= x /\ x <> INVALID_PID) as [Hx Hxinv] by lia.
  change (KState _ _ _ _ _) with (with_lock (S (pidlock s)) s).
  rewrite pi_get_eq by done. rewrite record_of_with_lock.
  destruct (record_of s x) as [r|] eqn:Hr; simpl; [|done].
  destruct (record_of_slot s x r Hr) as [Hslot Hpid].
  destruct (slot_nonneg x HP Hx) as [Hs0 Hs1].
  assert (Hin : (Z.to_nat (slot x) < length (pidinfo_tbl s))%nat) by lia.
  rewrite (load_at _ (slot x) r) by done. simpl.
  destruct (pi_exited r) eqn:Hex; simpl; [done|].
  rewrite (load_at _ (slot x) r) by done. simpl.
  destruct (pi_ppid r =? me); simpl; [|done].
  rewrite (store_in _ (slot x) r) by done. simpl.
  erewrite store_in; [|done|by apply put_state_lookup]. simpl.
  rewrite put_put_state.
  erewrite store_in; [|done|by apply put_state_lookup]. simpl.
  rewrite put_put_state.
  erewrite pi_drop_eq; [| done | done | by apply put_state_lookup | done..].
  simpl. unfold drop_state, put_state, with_tbl, unalloc_record. simpl.
  by rewrite list_insert_insert_eq.
Qed.

(** [pid_join] up to the point where it looks at the exit status. *)
Lemma pid_join_error_eq s me t status flags e :
  limits_ok -> length (pidinfo_tbl s) = Z.to_nat PROCS_MAX ->
  join_error s me t = Some e ->
  pid_join me t status flags s = Done (e, status) s.
Proof.
  intros HL Hlen. pose proof (procs_pos HL) as HP.
  pose proof (pid_min_nonneg HL) as Hmin.
  unfold join_error, pid_join, bind. simpl.
  destruct (_ || _) eqn:Hchk; simpl.
  { intros [= <-]. by destruct s. }
  assert (0 <= t /\ t <> INVALID_PID) as [Ht Htinv] by lia.
  change (KState _ _ _ _ _) with (with_lock (S (pidlock s)) s).
  rewrite pi_get_eq by done. rewrite record_of_with_lock.
  destruct (record_of s t) as [r|] eqn:Hr; simpl.
  2:{ intros [= <-]. by destruct s. }
  destruct (record_of_slot s t r Hr) as [Hslot Hpid].
  destruct (slot_nonneg t HP Ht) as [Hs0 Hs1].
  rewrite (load_at _ (slot t) r) by done. simpl.
  destruct (pi_ppid r =? INVALID_PID); simpl.
  { intros [= <-]. by destruct s. }
  destruct (t =? me); simpl; [|done].
  intros [= <-]. by destruct s.
Qed.


End Functions.

(** ** More about allocation *)

Section AllocMore.
Context `{L : limits}.

Lemma advance_range k : forall n,
  limits_ok -> PID_MIN <= n <= PID_MAX -> PID_MIN <= advance k n <= PID_MAX.
Proof.
  induction k as [|k IH]; intros n HL Hn; [done|].
  simpl. apply IH; [done|]. by apply next_range.
Qed.

(** The probing loop stops at the first empty slot. *)
Lemma probe_first t budget : forall n n',
  probe budget t n = Some n' ->
  exists k : nat,
    n' = advance k n /\
    forall j : nat, (j < k)%nat ->
      t !! Z.to_nat (slot (advance j n)) <> Some None.
Proof.
  induction budget as [|budget IH]; intros n n' Hp; simpl in Hp.
  - destruct (t !! Z.to_nat (slot n)) as [[r|]|] eqn:Hs; try done.
    injection Hp as <-. exists 0%nat. split; [done|]. lia.
  - destruct (t !! Z.to_nat (slot n)) as [[r|]|] eqn:Hs.
    + destruct (IH _ _ Hp) as (k & -> & Hk). exists (S k). split; [done|].
      intros [|j] Hj; simpl; [by rewrite Hs|]. apply Hk. lia.
    + injection Hp as <-. exists 0%nat. split; [done|]. lia.
    + destruct (IH _ _ Hp) as (k & -> & Hk). exists (S k). split; [done|].
      intros [|j] Hj; simpl; [by rewrite Hs|]. apply Hk. lia.
Qed.

(** A successful call, taken apart. *)
Lemma pid_alloc_success s me km cv pid s' :
  limits_ok -> wf s -> me <> INVALID_PID ->
  pid_alloc me km cv s = Done (0, Some pid) s' ->
  exists blk,
    km = Some blk /\ s' = alloc_state pid me blk s /\
    probe (Z.to_nat (PROCS_MAX * 2 + 5)) (pidinfo_tbl s) (nextpid s) = Some pid /\
    PID_MIN <= pid <= PID_MAX /\
    pidinfo_tbl s !! Z.to_nat (slot pid) = Some None.
Proof.
  intros HL Hwf Hme Hret.
  destruct (errno_pos HL) as (Hagain & Hnomem & _).
  rewrite pid_alloc_eq in Hret by done.
  destruct (nprocs s =? PROCS_MAX); [injection Hret; intros; lia|].
  destruct (probe _ _ _) as [pid'|] eqn:Hprobe; [|done].
  destruct (probe_sound _ _ _ _ HL (wf_next s Hwf) Hprobe) as [Hpid Hfree].
  destruct km as [blk|]; [destruct cv|]; injection Hret; intros; try lia.
  subst pid' s'. by exists blk.
Qed.

(** Records of other pids are the same in a state that differs in the
    slot of [x] only, when the record there is the one of [x] or none. *)
Lemma record_of_other_slot s s' x y :
  y <> x ->
  (forall i : nat, i <> Z.to_nat (slot x) ->
                   pidinfo_tbl s' !! i = pidinfo_tbl s !! i) ->
  (forall r, pidinfo_tbl s !! Z.to_nat (slot x) = Some (Some r) -> pi_pid r = x) ->
  (forall r, pidinfo_tbl s' !! Z.to_nat (slot x) = Some (Some r) -> pi_pid r = x) ->
  record_of s' y = record_of s y.
Proof.
  intros Hy Hsame Hx Hx'. unfold record_of.
  destruct (decide (Z.to_nat (slot y) = Z.to_nat (slot x))) as [Heq|Hne].
  - rewrite Heq.
    destruct (pidinfo_tbl s' !! _) as [[r'|]|] eqn:Hr';
      destruct (pidinfo_tbl s !! _) as [[r|]|] eqn:Hr; try done;
      try (rewrite (Hx' r' eq_refl)); try (rewrite (Hx r eq_refl));
      by destruct (Z.eqb_spec x y).
  - by rewrite Hsame.
Qed.

Lemma record_of_put_other s x y r r' :
  y <> x -> pidinfo_tbl s !! Z.to_nat (slot x) = Some (Some r) ->
  pi_pid r = x -> pi_pid r' = x ->
  record_of (put_state (slot x) r' s) y = record_of s y.
Proof.
  intros Hy Hr Hpid Hpid'. apply (record_of_other_slot _ _ x); [done|..].
  - intros i Hi. simpl. by rewrite list_lookup_insert_ne.
  - intros r0. rewrite Hr. by intros [= <-].
  - intros r0. simpl.
    rewrite list_lookup_insert_eq by (by eapply lookup_lt_Some).
    by intros [= <-].
Qed.

Lemma record_of_drop_other s x y r r' :
  y <> x -> pidinfo_tbl s !! Z.to_nat (slot x) = Some (Some r) ->
  pi_pid r = x ->
  record_of (drop_state (slot x) r' s) y = record_of s y.
Proof.
  intros Hy Hr Hpid. apply (record_of_other_slot _ _ x); [done|..].
  - intros i Hi. simpl. by rewrite list_lookup_insert_ne.
  - intros r0. rewrite Hr. by intros [= <-].
  - intros r0. simpl.
    by rewrite list_lookup_insert_eq by (by eapply lookup_lt_Some).
Qed.


(** X2: when there is room but [kmalloc] or [cv_create] fails,
    [pid_alloc] returns ENOMEM and stores no pid; the table and the
    count are as before, but the cursor has moved on to the pid it had
    found, whose slot is empty. *)
Theorem alloc_enomem_keeps_table s me km cv :
  limits_ok -> wf s -> me <> INVALID_PID ->
  live_count s <> PROCS_MAX -> km = None \/ cv = false ->
  exists s', pid_alloc me km cv s = Done (ENOMEM, None) s' /\
             pidinfo_tbl s' = pidinfo_tbl s /\ nprocs s' = nprocs s /\
             PID_MIN <= nextpid s' <= PID_MAX /\
             pidinfo_tbl s !! Z.to_nat (slot (nextpid s')) = Some None.
Proof.
  intros HL Hwf Hme Hroom Hfail. rewrite pid_alloc_eq by done.
  rewrite (wf_count s Hwf).
  destruct (Z.eqb_spec (live_count s) PROCS_MAX); [done|].
  destruct (probe_succeeds s HL Hwf Hroom) as [pid Hprobe]. rewrite Hprobe.
  destruct (probe_sound _ _ _ _ HL (wf_next s Hwf) Hprobe) as [Hpid Hfree].
  exists (with_nextpid pid s).
  destruct Hfail as [-> | ->]; [|destruct km]; simpl.
  all: repeat split; try done; try lia; apply Hwf.
Qed.

(** X3: the pid a successful [pid_alloc] hands out is the first one,
    going round from the cursor, whose slot is empty: every pid the
    cursor passed over has its slot taken; afterwards the cursor is the
    successor of the pid handed out (back to [PID_MIN] after [PID_MAX]). *)
Theorem alloc_takes_first_free_from_cursor s me km cv pid s' :
  limits_ok -> wf s -> me <> INVALID_PID ->
  pid_alloc me km cv s = Done (0, Some pid) s' ->
  exists k : nat,
    pid = advance k (nextpid s) /\
    (forall j : nat, (j < k)%nat ->
       exists r, pidinfo_tbl s !! Z.to_nat (slot (advance j (nextpid s)))
                 = Some (Some r)) /\
    pidinfo_tbl s !! Z.to_nat (slot pid) = Some None /\
    nextpid s' = (if pid =? PID_MAX then PID_MIN else pid + 1).
Proof.
  intros HL Hwf Hme Hret. pose proof (procs_pos HL) as HP.
  pose proof (pid_min_nonneg HL) as Hmin.
  destruct (pid_alloc_success s me km cv pid s' HL Hwf Hme Hret)
    as (blk & -> & -> & Hprobe & Hpid & Hfree).
  destruct (probe_first _ _ _ _ Hprobe) as (k & -> & Hk).
  exists k. split; [done|]. split; [|split; [done|]].
  - intros j Hj. specialize (Hk j Hj).
    pose proof (advance_range j (nextpid s) HL (wf_next s Hwf)) as Hrange.
    assert (Hj0 : 0 <= advance j (nextpid s)) by lia.
    destruct (slot_nonneg (advance j (nextpid s)) HP Hj0) as [Hs0 Hs1].
    destruct (lookup_lt_is_Some_2 (pidinfo_tbl s)
                (Z.to_nat (slot (advance j (nextpid s))))) as [[r|] He];
      [rewrite (wf_len s Hwf); lia|by exists r|done].
  - simpl. unfold next. rewrite Z.gtb_ltb.
    destruct (Z.ltb_spec PID_MAX (advance k (nextpid s) + 1));
      destruct (Z.eqb_spec (advance k (nextpid s)) PID_MAX); lia.
Qed.

(** X4: a successful [pid_alloc] leaves the record of every other pid as
    it was, and the slot it fills is that of no live record: a pid whose
    slot is taken is never handed out, also when the pid itself is free. *)
Theorem alloc_disturbs_no_record s me km cv pid s' :
  limits_ok -> wf s -> me <> INVALID_PID ->
  pid_alloc me km cv s = Done (0, Some pid) s' ->
  (forall y, y <> pid -> record_of s' y = record_of s y) /\
  (forall r, r ∈ live s -> slot (pi_pid r) <> slot pid).
Proof.
  intros HL Hwf Hme Hret.
  destruct (pid_alloc_success s me km cv pid s' HL Hwf Hme Hret)
    as (blk & -> & -> & Hprobe & Hpid & Hfree).
  split.
  - intros y Hy. apply (record_of_other_slot _ _ pid); [done|..].
    + intros i Hi. simpl. by rewrite list_lookup_insert_ne.
    + intros r. by rewrite Hfree.
    + intros r. simpl.
      rewrite list_lookup_insert_eq by (by eapply lookup_lt_Some).
      by intros [= <-].
  - intros r Hr Heq. apply live_lookup in Hr as [i Hi].
    destruct (wf_slots s Hwf i r Hi) as (_ & Hslot & _).
    rewrite <- Heq, Hslot, Nat2Z.id in Hfree. congruence.
Qed.

(** X5: taking back a pid right after it was allocated undoes the
    allocation: [pid_unalloc] returns, and the table and the count are
    those from before the [pid_alloc]; what remains is the cursor, which
    has moved past the pid, and the freed record in the log. *)
Theorem alloc_unalloc_round_trip s me km cv pid s1 :
  limits_ok -> wf s -> me <> INVALID_PID ->
  pid_alloc me km cv s = Done (0, Some pid) s1 ->
  exists s2, pid_unalloc me pid s1 = Done tt s2 /\
             pidinfo_tbl s2 = pidinfo_tbl s /\ nprocs s2 = nprocs s /\
             pidlock s2 = pidlock s /\ nextpid s2 = nextpid s1 /\
             length (freed s2) = S (length (freed s)).
Proof.
  intros HL Hwf Hme Hret. pose proof (procs_pos HL) as HP.
  pose proof (pid_min_nonneg HL) as Hmin. pose proof (procs_int HL) as Hint.
  pose proof (live_count_le s HL Hwf) as Hle.
  destruct (pid_alloc_success s me km cv pid s1 HL Hwf Hme Hret)
    as (blk & -> & -> & Hprobe & Hpid & Hfree).
  pose proof (lookup_lt_Some _ _ _ Hfree) as Hlt.
  rewrite pid_unalloc_eq by (done || (simpl; rewrite length_insert; apply Hwf)).
  replace ((PID_MIN <=? pid) && (pid <=? PID_MAX)) with true by lia. simpl.
  unfold record_of at 1. simpl. rewrite list_lookup_insert_eq by done.
  simpl. rewrite !Z.eqb_refl. simpl.
  eexists. split; [done|]. simpl. repeat split.
  - rewrite list_insert_insert_eq. by apply list_insert_id.
  - rewrite (wf_count s Hwf) in *. rewrite (int_wrap_small (_ + 1)) by lia.
    rewrite int_wrap_small; lia.
Qed.

End AllocMore.

(** ** More about unalloc and detach *)

Section DetachMore.
Context `{L : limits}.

Lemma drop_state_wf s x r r' :
  limits_ok -> wf s -> pidinfo_tbl s !! Z.to_nat (slot x) = Some (Some r) ->
  wf (drop_state (slot x) r' s) /\
  live_count (drop_state (slot x) r' s) = live_count s - 1.
Proof.
  intros HL Hwf Hr. split; [by apply (wf_drop _ r)|].
  unfold live_count. simpl.
  pose proof (occupied_insert_clear _ _ _ Hr). lia.
Qed.

(** X6: [pid_unalloc] trips an assertion unless the pid lies in
    [[PID_MIN, PID_MAX]], has a record, the record has not exited and
    the caller is its parent.  Then it returns, the pid has no record
    any more, one record less is live, the records of the other pids are
    as before, the invariant holds, and the log has one more record,
    which carries the exit status 0xdead. *)
Theorem unalloc_contract s me x :
  limits_ok -> wf s ->
  (~ PID_MIN <= x <= PID_MAX -> pid_unalloc me x s = Abort (KAssert 291)) /\
  (PID_MIN <= x <= PID_MAX -> record_of s x = None ->
   pid_unalloc me x s = Abort (KAssert 296)) /\
  (forall r, PID_MIN <= x <= PID_MAX -> record_of s x = Some r ->
     (pi_exited r = true -> pid_unalloc me x s = Abort (KAssert 297)) /\
     (pi_exited r = false -> pi_ppid r <> me ->
      pid_unalloc me x s = Abort (KAssert 298)) /\
     (pi_exited r = false -> pi_ppid r = me ->
      exists s', pid_unalloc me x s = Done tt s' /\
                 record_of s' x = None /\
                 (forall y, y <> x -> record_of s' y = record_of s y) /\
                 live_count s' = live_count s - 1 /\ wf s' /\
                 pidlock s' = pidlock s /\
                 freed s' = PidInfo x INVALID_PID true 57005 (detached r)
                            :: freed s)).
Proof.
  intros HL Hwf. pose proof (wf_len s Hwf) as Hlen.
  rewrite pid_unalloc_eq by done. split; [|split].
  - intros Hx. by replace ((PID_MIN <=? x) && (x <=? PID_MAX)) with false by lia.
  - intros Hx ->. by replace ((PID_MIN <=? x) && (x <=? PID_MAX)) with true by lia.
  - intros r Hx Hr. rewrite Hr.
    replace ((PID_MIN <=? x) && (x <=? PID_MAX)) with true by lia. simpl.
    destruct (record_of_slot s x r Hr) as [Hslot Hpid].
    split; [|split].
    + by intros ->.
    + intros -> Hpp. by destruct (Z.eqb_spec (pi_ppid r) me).
    + intros -> Hpp. rewrite Hpp, Z.eqb_refl. simpl.
      eexists. split; [done|].
      destruct (drop_state_wf s x r (unalloc_record r) HL Hwf Hslot)
        as [Hwf' Hcount].
      split_and!; try done.
      * by apply (record_of_drop_state s x r).
      * intros y Hy. by apply (record_of_drop_other s x y r).
      * by rewrite <- Hpid.
Qed.

(** X7: past its first test, [pid_detach] refuses with [-ESRCH] a pid
    without record, and with [-EINVAL] a record that has no parent or
    whose parent is not the caller; whenever [pid_detach] returns
    anything but 0, the state is the one it started from. *)
Theorem detach_refusals s me x :
  limits_ok -> length (pidinfo_tbl s) = Z.to_nat PROCS_MAX ->
  (x <> INVALID_PID -> x <> BOOTUP_PID -> PID_MIN <= x ->
   (record_of s x = None -> pid_detach me x s = Done (- ESRCH) s) /\
   (forall r, record_of s x = Some r ->
      pi_ppid r = INVALID_PID \/ pi_ppid r <> me ->
      pid_detach me x s = Done (- EINVAL) s)) /\
  (forall v s', pid_detach me x s = Done v s' -> v <> 0 -> s' = s).
Proof.
  intros HL Hlen. rewrite pid_detach_eq by done. split.
  - intros H1 H2 H3.
    replace ((x =? INVALID_PID) || (x =? BOOTUP_PID) || (x <? PID_MIN))
      with false by lia.
    split; [by intros ->|]. intros r -> Hpp.
    destruct (Z.eqb_spec (pi_ppid r) INVALID_PID); [done|].
    destruct (Z.eqb_spec (pi_ppid r) me); [|done]. by destruct Hpp.
  - intros v s'. destruct (_ || _); [by intros [= _ <-]|].
    destruct (record_of s x) as [r|]; [|by intros [= _ <-]].
    destruct (pi_ppid r =? INVALID_PID); [by intros [= _ <-]|].
    destruct (negb _); [by intros [= _ <-]|].
    by intros [= <- _].
Qed.

(** X8: when the parent detaches a child that has not exited,
    [pid_detach] returns 0 and the child's record stays in the table
    without parent and with [detached] set; the records of the other
    pids, the count, the cursor and the log are as before. *)
Theorem detach_running_child s me x r :
  limits_ok -> wf s -> record_of s x = Some r ->
  pi_ppid r = me -> me <> INVALID_PID -> pi_exited r = false ->
  exists s', pid_detach me x s = Done 0 s' /\
             record_of s' x = Some (PidInfo x INVALID_PID false
                                            (pi_exitstatus r) true) /\
             (forall y, y <> x -> record_of s' y = record_of s y) /\
             nprocs s' = nprocs s /\ nextpid s' = nextpid s /\
             pidlock s' = pidlock s /\ freed s' = freed s /\ wf s'.
Proof.
  intros HL Hwf Hr Hpp Hme Hex. pose proof (wf_len s Hwf) as Hlen.
  pose proof (procs_pos HL) as HP.
  assert (Hrange : PID_MIN <= x <= PID_MAX).
  { apply (parented_in_range s x r); [done..|congruence]. }
  destruct (range_checks x HL Hrange) as (Hx0 & _ & _ & Hchk & _).
  destruct (record_of_slot s x r Hr) as [Hslot Hpid].
  destruct (slot_nonneg x HP Hx0) as [Hs0 _].
  rewrite pid_detach_eq by done. rewrite Hchk, Hr, Hpp.
  destruct (Z.eqb_spec me INVALID_PID); [done|]. rewrite Z.eqb_refl. simpl.
  unfold detach_state. rewrite Hex. eexists. split; [done|].
  split_and!; try done.
  - rewrite (record_of_put_state s x r) by done.
    destruct r; simpl in *. by subst.
  - intros y Hy. by apply (record_of_put_other s x y r).
  - apply (wf_put _ r); [done..|by right].
Qed.

(** X9: when the parent detaches a child that has exited, [pid_detach]
    returns 0 and reclaims the record at once: the pid has no record, its
    slot is empty, one record less is live, the freed record is in the
    log, and the records of the other pids are as before. *)
Theorem detach_exited_child s me x r :
  limits_ok -> wf s -> record_of s x = Some r ->
  pi_ppid r = me -> me <> INVALID_PID -> pi_exited r = true ->
  exists s', pid_detach me x s = Done 0 s' /\
             record_of s' x = None /\
             pidinfo_tbl s' !! Z.to_nat (slot x) = Some None /\
             (forall y, y <> x -> record_of s' y = record_of s y) /\
             live_count s' = live_count s - 1 /\
             pidlock s' = pidlock s /\
             freed s' = PidInfo x INVALID_PID true (pi_exitstatus r) true
                        :: freed s /\
             wf s'.
Proof.
  intros HL Hwf Hr Hpp Hme Hex. pose proof (wf_len s Hwf) as Hlen.
  pose proof (procs_pos HL) as HP.
  assert (Hrange : PID_MIN <= x <= PID_MAX).
  { apply (parented_in_range s x r); [done..|congruence]. }
  destruct (range_checks x HL Hrange) as (Hx0 & _ & _ & Hchk & _).
  destruct (record_of_slot s x r Hr) as [Hslot Hpid].
  rewrite pid_detach_eq by done. rewrite Hchk, Hr, Hpp.
  destruct (Z.eqb_spec me INVALID_PID); [done|]. rewrite Z.eqb_refl. simpl.
  unfold detach_state. rewrite Hex. eexists. split; [done|].
  destruct (drop_state_wf s x r (set_detached true (set_ppid INVALID_PID r))
              HL Hwf Hslot) as [Hwf' Hcount].
  split_and!; try done.
  - by apply (record_of_drop_state s x r).
  - simpl. apply list_lookup_insert_eq. by eapply lookup_lt_Some.
  - intros y Hy. by apply (record_of_drop_other s x y r).
  - simpl. destruct r; simpl in *. by subst.
Qed.

End DetachMore.

(** ** More about exit *)

Section ExitMore.
Context `{L : limits}.

(** X10: [pid_exit] trips the assertion on its own record when the
    caller has none.  Without [dodetach], a caller that is not detached
    becomes a zombie: its record stays, marked as exited with the status
    given, and nothing else changes; a caller that is detached is
    reclaimed at once: its pid has no record any more and the record is
    in the log.  Either way the records of the other pids are as before. *)
Theorem exit_marks_or_reclaims s me status :
  limits_ok -> wf s -> 0 <= me -> me <> INVALID_PID ->
  (record_of s me = None ->
   forall dodetach, pid_exit me status dodetach s = Abort (KAssert 384)) /\
  (forall r, record_of s me = Some r -> detached r = false ->
     exists s', pid_exit me status false s = Done tt s' /\
       record_of s' me = Some (PidInfo me (pi_ppid r) true status false) /\
       (forall y, y <> me -> record_of s' y = record_of s y) /\
       nprocs s' = nprocs s /\ pidlock s' = pidlock s /\
       freed s' = freed s /\ wf s') /\
  (forall r, record_of s me = Some r -> detached r = true ->
     exists s', pid_exit me status false s = Done tt s' /\
       record_of s' me = None /\
       (forall y, y <> me -> record_of s' y = record_of s y) /\
       live_count s' = live_count s - 1 /\ pidlock s' = pidlock s /\
       freed s' = PidInfo me INVALID_PID true status true :: freed s /\
       wf s').
Proof.
  intros HL Hwf Hme Hinv. pose proof (wf_len s Hwf) as Hlen.
  pose proof (procs_pos HL) as HP.
  destruct (slot_nonneg me HP Hme) as [Hs0 _].
  split; [|split].
  - intros Hr dodetach. unfold pid_exit, bind. simpl.
    change (KState _ _ _ _ _) with (with_lock (S (pidlock s)) s).
    rewrite pi_get_eq by done. by rewrite record_of_with_lock, Hr.
  - intros r Hr Hdet. rewrite pid_exit_nodetach_eq by done. rewrite Hr.
    destruct (record_of_slot s me r Hr) as [Hslot Hpid].
    unfold exit_state. rewrite Hdet. eexists. split; [done|].
    split_and!; try done.
    + rewrite (record_of_put_state s me r) by done.
      destruct r; simpl in *. by subst.
    + intros y Hy. by apply (record_of_put_other s me y r).
    + apply (wf_put _ r); [done..|by left].
  - intros r Hr Hdet. rewrite pid_exit_nodetach_eq by done. rewrite Hr.
    destruct (record_of_slot s me r Hr) as [Hslot Hpid].
    unfold exit_state. rewrite Hdet. eexists. split; [done|].
    match goal with |- context [drop_state _ ?r' s] =>
      destruct (drop_state_wf s me r r' HL Hwf Hslot) as [Hwf' Hcount] end.
    split_and!; try done.
    + by apply (record_of_drop_state s me r).
    + intros y Hy. by apply (record_of_drop_other s me y r).
    + simpl. destruct r; simpl in *. by subst.
Qed.

(** X11: exit, then join.  When a child that is not detached exits with
    a status and its parent joins it afterwards, with any flags, the
    join returns the child's pid and stores that status. *)
Theorem exit_then_join s p x r status :
  limits_ok -> wf s -> record_of s x = Some r ->
  pi_ppid r = p -> p <> INVALID_PID -> x <> p -> detached r = false ->
  exists s1, pid_exit x status false s = Done tt s1 /\
    forall v flags,
      pid_join p x (Some v) flags s1 = Done (x, Some status) s1.
Proof.
  intros HL Hwf Hr Hpp Hp Hxp Hdet. pose proof (wf_len s Hwf) as Hlen.
  pose proof (procs_pos HL) as HP.
  assert (Hrange : PID_MIN <= x <= PID_MAX).
  { apply (parented_in_range s x r); [done..|congruence]. }
  destruct (range_checks x HL Hrange) as (Hx0 & Hxinv & _).
  destruct (record_of_slot s x r Hr) as [Hslot Hpid].
  destruct (slot_nonneg x HP Hx0) as [Hs0 _].
  rewrite pid_exit_nodetach_eq by done. rewrite Hr.
  unfold exit_state. rewrite Hdet. eexists. split; [done|].
  intros v flags.
  set (r' := set_exitstatus status (set_exited true r)).
  assert (Hwf' : wf (put_state (slot x) r' s)).
  { apply (wf_put _ r); [done..|by left]. }
  assert (Hr' : record_of (put_state (slot x) r' s) x = Some r').
  { by apply (record_of_put_state s x r). }
  destruct (pid_join_on_child _ p x r' (Some v) flags HL Hwf' Hr')
    as [Hjoin _]; [simpl; congruence|done|].
  by apply Hjoin.
Qed.

(** X12: exit and detach in either order.  For a child that has not
    exited and is not detached, "the child exits, then the parent
    detaches it" and "the parent detaches it, then the child exits" both
    succeed and end in the same state, in which the record is reclaimed. *)
Theorem exit_detach_commute s p x r status :
  limits_ok -> wf s -> record_of s x = Some r ->
  pi_ppid r = p -> p <> INVALID_PID ->
  pi_exited r = false -> detached r = false ->
  exists sa sb s',
    pid_exit x status false s = Done tt sa /\ pid_detach p x sa = Done 0 s' /\
    pid_detach p x s = Done 0 sb /\ pid_exit x status false sb = Done tt s' /\
    record_of s' x = None /\
    freed s' = PidInfo x INVALID_PID true status true :: freed s.
Proof.
  intros HL Hwf Hr Hpp Hp Hex Hdet. pose proof (wf_len s Hwf) as Hlen.
  pose proof (procs_pos HL) as HP.
  assert (Hrange : PID_MIN <= x <= PID_MAX).
  { apply (parented_in_range s x r); [done..|congruence]. }
  destruct (range_checks x HL Hrange) as (Hx0 & Hxinv & _ & Hchk & _).
  destruct (record_of_slot s x r Hr) as [Hslot Hpid].
  destruct (slot_nonneg x HP Hx0) as [Hs0 _].
  pose proof (lookup_lt_Some _ _ _ Hslot) as Hlt.
  set (ra := set_exitstatus status (set_exited true r)).
  set (rb := disowned r).
  exists (put_state (slot x) ra s), (put_state (slot x) rb s).
  eexists. split_and!.
  - rewrite pid_exit_nodetach_eq by done. rewrite Hr.
    unfold exit_state. by rewrite Hdet.
  - rewrite pid_detach_eq by (done || (simpl; by rewrite length_insert)).
    rewrite Hchk. rewrite (record_of_put_state s x r) by done.
    simpl. rewrite Hpp.
    destruct (Z.eqb_spec p INVALID_PID); [done|]. rewrite Z.eqb_refl. simpl.
    unfold detach_state. simpl. done.
  - rewrite pid_detach_eq by done. rewrite Hchk, Hr, Hpp.
    destruct (Z.eqb_spec p INVALID_PID); [done|]. rewrite Z.eqb_refl. simpl.
    unfold detach_state. by rewrite Hex.
  - rewrite pid_exit_nodetach_eq
      by (done || (simpl; by rewrite length_insert)).
    rewrite (record_of_put_state s x r) by done.
    unfold exit_state. simpl. unfold drop_state, put_state. simpl.
    by rewrite !list_insert_insert_eq.
  - unfold record_of. simpl. rewrite list_insert_insert_eq.
    by rewrite list_lookup_insert_eq.
  - simpl. destruct r; simpl in *. by subst.
Qed.

End ExitMore.

(** ** The children that [pid_exit] disowns *)

Section Disown.
Context `{L : limits}.

Lemma for_loop_returns_step (I : Z -> kstate -> Prop) body : forall n from s,
  (forall i s, from <= i < from + Z.of_nat n -> I i s ->
               returns (fun _ s' => I (i + 1) s') (body i s)) ->
  I from s ->
  returns (fun _ s' => I (from + Z.of_nat n) s') (for_loop n from body s).
Proof.
  induction n as [|n IH]; intros from s Hbody Hs.
  - simpl. by replace (from + Z.of_nat 0) with from by lia.
  - simpl. apply returns_bind.
    eapply returns_weaken; [apply Hbody; [lia|done]|]. intros [] s1 Hs1.
    replace (from + Z.of_nat (S n)) with ((from + 1) + Z.of_nat n) by lia.
    apply IH; [|done]. intros i s2 Hi. apply Hbody. lia.
Qed.

(** [pi_get], with what its assertions have checked. *)
Lemma pi_get_returns s pid (Q : option ptr -> kstate -> Prop) :
  0 < PROCS_MAX -> length (pidinfo_tbl s) = Z.to_nat PROCS_MAX ->
  (0 <= pid -> pid <> INVALID_PID -> pidlock s <> 0%nat ->
   Q (match record_of s pid with Some _ => Some (slot pid) | None => None end) s) ->
  returns Q (pi_get pid s).
Proof.
  intros HP Hlen HQ.
  destruct (Z_le_gt_dec 0 pid) as [H0|H0].
  2:{ unfold pi_get, bind, KASSERT.
      by replace (0 <=? pid) with false by lia. }
  destruct (Z.eq_dec pid INVALID_PID) as [Hinv|Hinv].
  { unfold pi_get, bind, KASSERT.
    replace (0 <=? pid) with true by lia. simpl.
    by replace (pid =? INVALID_PID) with true by lia. }
  destruct (Nat.eq_dec (pidlock s) 0) as [Hlock|Hlock].
  { unfold pi_get, bind, KASSERT, lock_do_i_hold.
    replace (0 <=? pid) with true by lia. simpl.
    replace (pid =? INVALID_PID) with false by lia. simpl.
    by rewrite Hlock. }
  rewrite pi_get_eq by done. by apply HQ.
Qed.

Lemma pi_drop_returns s pid :
  returns (fun _ s' => exists r, s' = drop_state (slot pid) r s) (pi_drop pid s).
Proof.
  unfold pi_drop, bind, lock_do_i_hold, KASSERT, tbl_read. simpl.
  destruct (negb _); [|done]. simpl.
  destruct (slot pid <? 0) eqn:Hneg; [done|].
  destruct (pidinfo_tbl s !! Z.to_nat (slot pid)) as [e|] eqn:He; [|done].
  simpl. destruct e as [r|]; [|done].
  destruct (pi_pid r =? pid); [|done]. simpl.
  unfold pidinfo_destroy, bind, KASSERT.
  destruct (pi_exited r); [|done]. simpl.
  destruct (pi_ppid r =? INVALID_PID); [|done]. simpl.
  unfold tbl_write. simpl. rewrite Hneg, He. simpl. by exists r.
Qed.

(** A round that finds no child of the caller under the pid [i]. *)
Lemma disown_inv_skip me p held s0 i s :
  disown_inv me p held s0 i s ->
  (forall c, pidinfo_tbl s !! Z.to_nat (slot i) = Some (Some c) ->
             pi_pid c = i -> pi_ppid c <> me) ->
  disown_inv me p held s0 (i + 1) s.
Proof.
  intros (Hlen & Hlock & Hmine & Hleaves) Hnone.
  split; [done|split; [done|split; [done|]]].
  intros c Hc Hcme. destruct (Hleaves c Hc Hcme) as [Hdis Hsame]. split.
  - intros Hpp Hrange. destruct (Z.eq_dec (pi_pid c) i) as [Heq|Hne].
    + exfalso. apply (Hnone c); [|done..]. rewrite <- Heq. apply Hsame. lia.
    + apply Hdis; [done|lia].
  - intros Hnot. apply Hsame. lia.
Qed.

(** A round that has replaced the child [c'] found under the pid [i] by
    its disowned form. *)
Lemma disown_inv_mark me p held s0 i s c' s' :
  disown_inv me p held s0 i s ->
  pidinfo_tbl s !! Z.to_nat (slot i) = Some (Some c') ->
  pi_pid c' = i -> pi_ppid c' = me -> PID_MIN <= i ->
  pidlock s' = S held ->
  pidinfo_tbl s'
  = <[Z.to_nat (slot i) := Some (disowned c')]> (pidinfo_tbl s) ->
  disown_inv me p held s0 (i + 1) s'.
Proof.
  intros (Hlen & Hlock & Hmine & Hleaves) Hc' Hpid Hpp Hi Hlock' Htbl.
  pose proof (lookup_lt_Some _ _ _ Hc') as Hlt.
  split; [|split; [done|split]].
  - by rewrite Htbl, length_insert.
  - intros m. rewrite Htbl. intros Hm.
    apply list_lookup_insert_Some in Hm as [(Heq & [= <-] & _)|[_ Hm]].
    + simpl. apply Hmine. by rewrite <- Heq.
    + by apply Hmine.
  - intros c Hc Hcme. destruct (Hleaves c Hc Hcme) as [Hdis Hsame].
    rewrite Htbl.
    destruct (decide (Z.to_nat (slot (pi_pid c)) = Z.to_nat (slot i)))
      as [Heq|Hne].
    + assert (Hci : pi_pid c = i).
      { destruct (Z_lt_le_dec (pi_pid c) i) as [Hlti|Hlei].
        - destruct (Z.eq_dec (pi_ppid c) me) as [Hcpp|Hcpp].
          + destruct (Z_lt_le_dec (pi_pid c) PID_MIN).
            * rewrite Heq, Hc' in Hsame.
              injection Hsame as <-; [done|lia].
            * rewrite Heq, Hc' in Hdis. injection Hdis as ->; [|done|lia].
              done.
          + rewrite Heq, Hc' in Hsame. injection Hsame as <-; [done|].
            by intros [? _].
        - rewrite Heq, Hc' in Hsame. injection Hsame as <-; [done|lia]. }
      assert (c = c') as <-.
      { rewrite Heq, Hc' in Hsame. injection Hsame as <-; [done|lia]. }
      rewrite Heq, list_lookup_insert_eq by done. split; [done|].
      intros Hnot. destruct Hnot. split; [done|lia].
    + rewrite list_lookup_insert_ne by done. split.
      * intros Hcpp Hrange. apply Hdis; [done|].
        destruct (Z.eq_dec (pi_pid c) i) as [Hci|Hci]; [|lia].
        by rewrite Hci in Hne.
      * intros Hnot. apply Hsame. lia.
Qed.

(** One round of the loop. *)
Lemma disown_child_step me p held s0 i s :
  limits_ok -> me <> INVALID_PID -> PID_MIN <= i < PID_MAX ->
  disown_inv me p held s0 i s ->
  returns (fun _ s' => disown_inv me p held s0 (i + 1) s')
          (disown_child me p i s).
Proof.
  intros HL Hme Hi Hinv. pose proof Hinv as (Hlen & Hlock & Hmine & _).
  pose proof (procs_pos HL) as HP.
  destruct (range_checks i HL ltac:(lia)) as (Hi0 & Hiinv & _ & Hchk & _).
  destruct (slot_nonneg i HP Hi0) as [Hs0 _].
  unfold disown_child. apply returns_bind.
  apply pi_get_returns; [done..|]. intros _ _ _.
  destruct (record_of s i) as [c'|] eqn:Hc'.
  2:{ simpl. apply disown_inv_skip; [done|]. intros c Hc Hpid.
      unfold record_of in Hc'. rewrite Hc, Hpid, Z.eqb_refl in Hc'. done. }
  destruct (record_of_slot s i c' Hc') as [Hslot Hpid].
  pose proof (lookup_lt_Some _ _ _ Hslot) as Hlt.
  apply returns_bind. rewrite (load_at s (slot i) c') by done. simpl.
  apply returns_bind. eapply returns_weaken; [apply post_returns, load_post|].
  intros m s1 (-> & _ & Hm). rewrite (Hmine m Hm).
  destruct (Z.eqb_spec (pi_ppid c') me) as [Hpp|Hpp].
  2:{ simpl. apply disown_inv_skip; [done|]. intros c Hc _.
      rewrite Hslot in Hc. by injection Hc as <-. }
  apply returns_bind.
  eapply returns_weaken; [apply post_returns, lock_release_post|].
  intros [] s1 (n & Hn & ->). rewrite Hlock in Hn. injection Hn as <-.
  apply returns_bind. rewrite (load_at _ (slot i) c') by done. simpl.
  apply returns_bind. rewrite Hpid.
  rewrite pid_detach_eq by done. rewrite Hchk, record_of_with_lock, Hc', Hpp.
  destruct (Z.eqb_spec me INVALID_PID); [done|]. rewrite Z.eqb_refl. simpl.
  apply returns_bind. simpl.
  eapply returns_weaken; [apply post_returns, store_post|].
  intros [] s3 (r & _ & Hr & ->). revert Hr.
  unfold detach_state. destruct (pi_exited c'); simpl; intros Hr.
  - by rewrite list_lookup_insert_eq in Hr.
  - rewrite list_lookup_insert_eq in Hr by done. injection Hr as <-.
    apply (disown_inv_mark me p held s0 i s c'); try done; [lia|].
    simpl. by rewrite list_insert_insert_eq.
Qed.

(** [pid_exit] as a whole: what it leaves of the other records. *)
Lemma pid_exit_leaves s me status (dodetach : bool) :
  limits_ok -> length (pidinfo_tbl s) = Z.to_nat PROCS_MAX ->
  returns (fun _ s' =>
             exit_leaves me (if dodetach then PID_MAX else PID_MIN) s s')
          (pid_exit me status dodetach s).
Proof.
  intros HL Hlen. pose proof (procs_pos HL) as HP.
  pose proof (pid_range_wide HL) as Hwide.
  unfold pid_exit. apply returns_bind. simpl.
  apply returns_bind. apply pi_get_returns; [done..|]. simpl.
  intros Hme0 Hme _.
  change (record_of _ me) with (record_of s me).
  destruct (record_of s me) as [r0|] eqn:Hr0; [|done].
  destruct (record_of_slot s me r0 Hr0) as [Hslot Hpid].
  pose proof (lookup_lt_Some _ _ _ Hslot) as Hlt.
  destruct (slot_nonneg me HP Hme0) as [Hs0 _].
  apply returns_bind.
  change (KState _ _ _ _ _) with (with_lock (S (pidlock s)) s).
  rewrite (store_in _ (slot me) r0) by done. simpl.
  apply returns_bind.
  erewrite store_in; [|done|by apply put_state_lookup]. simpl.
  rewrite put_put_state.
  set (r1 := set_exitstatus status (set_exited true r0)).
  match goal with |- returns _ (bind _ _ ?st) => set (s1 := st) end.
  assert (Hother : forall c,
            pidinfo_tbl s !! Z.to_nat (slot (pi_pid c)) = Some (Some c) ->
            pi_pid c <> me ->
            Z.to_nat (slot (pi_pid c)) <> Z.to_nat (slot me)).
  { intros c Hc Hcme Heq. rewrite Heq, Hslot in Hc. congruence. }
  assert (Hinv1 : disown_inv me (slot me) (pidlock s) s PID_MIN s1).
  { split; [|split; [done|split]].
    - simpl. by rewrite length_insert.
    - simpl. intros m. rewrite list_lookup_insert_eq by done.
      by intros [= <-].
    - intros c Hc Hcme. simpl.
      rewrite list_lookup_insert_ne by (by apply not_eq_sym, Hother).
      split; [lia|done]. }
  apply returns_bind. eapply returns_weaken.
  { instantiate (1 := fun _ s' =>
      disown_inv me (slot me) (pidlock s) s
                 (if dodetach then PID_MAX else PID_MIN) s').
    destruct dodetach; [|done].
    eapply returns_weaken.
    { apply (for_loop_returns_step (disown_inv me (slot me) (pidlock s) s) _
               (Z.to_nat (PID_MAX - PID_MIN)) PID_MIN s1); [|done].
      intros i s2 Hi Hs2. apply disown_child_step; [done|done|lia|done]. }
    intros [] s2 Hs2.
    by replace (PID_MIN + Z.of_nat (Z.to_nat (PID_MAX - PID_MIN)))
      with PID_MAX in Hs2 by lia. }
  intros [] s2 (Hlen2 & Hlock2 & Hmine2 & Hleaves2).
  apply returns_bind. simpl.
  apply returns_bind. eapply returns_weaken; [apply post_returns, load_post|].
  intros m s3 (-> & _ & Hm). pose proof (Hmine2 m Hm) as Hmpid.
  assert (Hafter : forall s3,
            (forall i : nat, i <> Z.to_nat (slot me) ->
                             pidinfo_tbl s3 !! i = pidinfo_tbl s2 !! i) ->
            exit_leaves me (if dodetach then PID_MAX else PID_MIN) s s3).
  { intros s3 Hsame c Hc Hcme.
    rewrite Hsame by (by apply Hother). by apply Hleaves2. }
  apply returns_bind. eapply returns_weaken.
  { instantiate (1 := fun _ s' =>
      forall i : nat, i <> Z.to_nat (slot me) ->
                      pidinfo_tbl s' !! i = pidinfo_tbl s2 !! i).
    destruct (detached m); [|done].
    apply returns_bind. rewrite (store_in _ (slot me) m) by done. simpl.
    apply returns_bind.
    erewrite load_at;
      [|done|apply put_state_lookup; by eapply lookup_lt_Some]. simpl.
    rewrite Hmpid.
    eapply returns_weaken; [apply pi_drop_returns|].
    intros [] s3 [r ->] i Hi. simpl.
    by rewrite !list_lookup_insert_ne by done. }
  intros [] s3 Hsame.
  eapply returns_weaken; [apply post_returns, lock_release_post|].
  intros [] s4 (n & _ & ->). by apply Hafter.
Qed.


(** X14: what [pid_exit] never touches.  When a call returns, with or
    without [dodetach], every record of another pid whose parent is not
    the caller is exactly as it was; without [dodetach] this holds for
    the children of the caller as well. *)
Theorem exit_leaves_strangers_alone s me status (dodetach : bool) s' c :
  limits_ok -> length (pidinfo_tbl s) = Z.to_nat PROCS_MAX ->
  pid_exit me status dodetach s = Done tt s' ->
  record_of s (pi_pid c) = Some c -> pi_pid c <> me ->
  pi_ppid c <> me \/ dodetach = false ->
  record_of s' (pi_pid c) = Some c.
Proof.
  intros HL Hlen Hret Hc Hcme Hwho.
  pose proof (pid_exit_leaves s me status dodetach HL Hlen) as Hleaves.
  rewrite Hret in Hleaves. simpl in Hleaves.
  apply record_of_slot in Hc as [Hc _].
  destruct (Hleaves c Hc Hcme) as [_ Hsame].
  unfold record_of. rewrite Hsame; [by rewrite Z.eqb_refl|].
  intros [Hpp Hrange]. destruct Hwho as [?| ->]; [done|]. lia.
Qed.

End Disown.

(** ** More about join, the helper, the lock and the invariant *)

Section JoinMore.
Context `{L : limits}.

(** X15: the refusals of [pid_join], in the order the code makes its
    tests: [-EINVAL] for the two reserved pids and for a pid outside
    [[PID_MIN, PID_MAX]]; [-ESRCH] for a pid without record; [-EINVAL]
    for a record without parent, also when it is the caller's own; and
    [-EDEADLK] for the caller's own record when it has a parent.  In
    each case the state and the status cell are left as they were. *)
Theorem join_refusals s me t status flags :
  limits_ok -> length (pidinfo_tbl s) = Z.to_nat PROCS_MAX ->
  (t = INVALID_PID \/ t = BOOTUP_PID \/ t < PID_MIN \/ PID_MAX < t ->
   pid_join me t status flags s = Done (- EINVAL, status) s) /\
  (t <> INVALID_PID -> t <> BOOTUP_PID -> PID_MIN <= t <= PID_MAX ->
   (record_of s t = None ->
    pid_join me t status flags s = Done (- ESRCH, status) s) /\
   (forall r, record_of s t = Some r ->
      (pi_ppid r = INVALID_PID ->
       pid_join me t status flags s = Done (- EINVAL, status) s) /\
      (pi_ppid r <> INVALID_PID -> t = me ->
       pid_join me t status flags s = Done (- EDEADLK, status) s))).
Proof.
  intros HL Hlen. split.
  - intros Ht. apply pid_join_error_eq; [done..|]. unfold join_error.
    by replace ((t =? INVALID_PID) || (t =? BOOTUP_PID) || (t <? PID_MIN)
                || (t >? PID_MAX)) with true by lia.
  - intros H1 H2 H3.
    assert (Hchk : (t =? INVALID_PID) || (t =? BOOTUP_PID) || (t <? PID_MIN)
                   || (t >? PID_MAX) = false) by lia.
    split.
    + intros Hr. apply pid_join_error_eq; [done..|]. unfold join_error.
      by rewrite Hchk, Hr.
    + intros r Hr. split.
      * intros Hpp. apply pid_join_error_eq; [done..|]. unfold join_error.
        by rewrite Hchk, Hr, Hpp, Z.eqb_refl.
      * intros Hpp ->. apply pid_join_error_eq; [done..|]. unfold join_error.
        rewrite Hchk, Hr, Z.eqb_refl.
        by destruct (Z.eqb_spec (pi_ppid r) INVALID_PID).
Qed.

(** X16: [pid_join] never changes the state: whenever it returns, with
    a result or with an error, the table, the counters, the lock and the
    log are exactly as before the call; and when it goes to sleep, it
    does so in the state it was called in, with the lock released. *)
Theorem join_never_changes_state s me t status flags :
  (forall v s', pid_join me t status flags s = Done v s' -> s' = s) /\
  (forall s1 k, pid_join me t status flags s = Blocked s1 k -> s1 = s).
Proof.
  unfold pid_join, bind. simpl.
  destruct (_ || _); simpl.
  { split; [intros v s' [= _ <-]; by destruct s|done]. }
  destruct (pi_get t _) as [q s1| |] eqn:Hget; simpl; try done.
  2:{ exfalso. revert Hget. unfold pi_get, bind, KASSERT, lock_do_i_hold, tbl_read.
      simpl. destruct (0 <=? t); [|done]. simpl.
      destruct (negb (t =? INVALID_PID)); [|done]. simpl.
      destruct (slot t <? 0); [done|].
      destruct (pidinfo_tbl s !! _) as [[r|]|]; simpl; [|done..].
      by destruct (negb _). }
  apply pi_get_pure in Hget as ->.
  destruct q as [p|]; simpl.
  2:{ split; [intros v s' [= _ <-]; by destruct s|done]. }
  assert (Hload : forall st, match load p st with
                             | Done _ st' => st' = st
                             | Abort _ => True
                             | Blocked _ _ => False
                             end).
  { intros st. apply load_lock. }
  pose proof (Hload (KState (pidinfo_tbl s) (nextpid s) (nprocs s)
                            (S (pidlock s)) (freed s))) as Hl.
  destruct (load p _) as [r s1| |]; simpl; [subst s1|done..].
  destruct (pi_ppid r =? INVALID_PID); simpl.
  { split; [intros v s' [= _ <-]; by destruct s|done]. }
  destruct (t =? me); simpl.
  { split; [intros v s' [= _ <-]; by destruct s|done]. }
  pose proof (Hload (KState (pidinfo_tbl s) (nextpid s) (nprocs s)
                            (S (pidlock s)) (freed s))) as Hl.
  destruct (load p _) as [r' s1| |]; simpl; [subst s1|done..].
  destruct (negb (pi_exited r')); simpl.
  - destruct (flags =? WNOHANG); simpl.
    + destruct status; simpl; [|done].
      split; [intros v s' [= _ <-]; by destruct s|done].
    + split; [done|]. intros s1 k [= <- _]. by destruct s.
  - destruct status; simpl.
    + pose proof (Hload (KState (pidinfo_tbl s) (nextpid s) (nprocs s)
                            (S (pidlock s)) (freed s))) as Hl.
      destruct (load p _) as [r'' s1| |]; simpl; [subst s1|done..].
      split; [intros v s' [= _ <-]; by destruct s|done].
    + split; [intros v s' [= _ <-]; by destruct s|done].
Qed.


(** X18: a detached process can never be joined.  After a successful
    [pid_detach] of [x], every [pid_join] on [x], by any thread and with
    any flags, is refused with [-EINVAL] or [-ESRCH], without change of
    state or status cell. *)
Theorem detach_then_join_is_refused s p x s1 me status flags :
  limits_ok -> length (pidinfo_tbl s) = Z.to_nat PROCS_MAX ->
  pid_detach p x s = Done 0 s1 ->
  exists e, pid_join me x status flags s1 = Done (e, status) s1 /\
            (e = - EINVAL \/ e = - ESRCH).
Proof.
  intros HL Hlen H1. pose proof (procs_pos HL) as HP.
  pose proof (pid_min_nonneg HL) as Hmin.
  destruct (errno_pos HL) as (_ & _ & Hinval & Hsrch & _).
  rewrite pid_detach_eq in H1 by done.
  destruct ((x =? INVALID_PID) || (x =? BOOTUP_PID) || (x <? PID_MIN)) eqn:Hchk.
  { injection H1 as ? _. lia. }
  destruct (record_of s x) as [r|] eqn:Hr; [|injection H1 as ? _; lia].
  destruct (pi_ppid r =? INVALID_PID) eqn:Hpp; [injection H1 as ? _; lia|].
  destruct (pi_ppid r =? p) eqn:Hme; simpl in H1; [|injection H1 as ? _; lia].
  injection H1 as <-.
  destruct (record_of_slot s x r Hr) as [Hslot Hpid].
  assert (0 <= x) as Hx by lia.
  destruct (slot_nonneg x HP Hx) as [Hs0 _].
  assert (Hlen' : length (pidinfo_tbl (detach_state x r s)) = Z.to_nat PROCS_MAX).
  { unfold detach_state. destruct (pi_exited r); simpl; by rewrite length_insert. }
  assert (Herr : exists e, join_error (detach_state x r s) me x = Some e /\
                           (e = - EINVAL \/ e = - ESRCH)).
  { unfold join_error. rewrite Hchk. simpl.
    destruct (x >? PID_MAX); [exists (- EINVAL); by split; [|left]|].
    unfold detach_state. destruct (pi_exited r).
    - rewrite (record_of_drop_state s x r) by done.
      exists (- ESRCH). by split; [|right].
    - rewrite (record_of_put_state s x r) by done. simpl.
      rewrite Z.eqb_refl. exists (- EINVAL). by split; [|left]. }
  destruct Herr as (e & He & Hor). exists e. split; [|done].
  by apply pid_join_error_eq.
Qed.


(** X20: the four operations that change the table give the lock back:
    whenever [pid_alloc], [pid_unalloc], [pid_detach] or [pid_exit]
    returns, with or without an error, the lock is held exactly as often
    as before the call. *)
Theorem table_operations_release_lock s me :
  limits_ok -> wf s ->
  (forall km cv v s', pid_alloc me km cv s = Done v s' -> pidlock s' = pidlock s) /\
  (forall x v s', pid_unalloc me x s = Done v s' -> pidlock s' = pidlock s) /\
  (forall x v s', pid_detach me x s = Done v s' -> pidlock s' = pidlock s) /\
  (forall status dodetach v s',
     pid_exit me status dodetach s = Done v s' -> pidlock s' = pidlock s).
Proof.
  intros HL Hwf.
  destruct (lifecycle_releases_lock s me HL Hwf) as (Ha & Hu & Hd & He & _).
  split_and!.
  - intros km cv v s' Hret. specialize (Ha km cv). rewrite Hret in Ha.
    apply Ha.
  - intros x v s' Hret. specialize (Hu x). rewrite Hret in Hu. apply Hu.
  - intros x v s' Hret. specialize (Hd x). rewrite Hret in Hd. apply Hd.
  - intros status dodetach v s' Hret. specialize (He status dodetach).
    rewrite Hret in He. apply He.
Qed.

(** X21: the invariant of the table (one slot per record, the slot of
    its pid; pids from the allocatable range, the bootstrap record apart;
    [nprocs] the number of records; the cursor in range) is kept by
    [pid_unalloc], [pid_detach] and [pid_exit], whenever they return. *)
Theorem table_operations_keep_invariant s me :
  limits_ok -> wf s ->
  (forall x v s', pid_unalloc me x s = Done v s' -> wf s') /\
  (forall x v s', pid_detach me x s = Done v s' -> wf s') /\
  (forall status dodetach v s',
     pid_exit me status dodetach s = Done v s' -> wf s').
Proof.
  intros HL Hwf. split_and!.
  - intros x v s' Hret.
    by apply (post_done _ _ _ _ (pid_unalloc_wf s me x HL Hwf) Hret).
  - intros x v s' Hret.
    by apply (post_done _ _ _ _ (pid_detach_wf s me x HL Hwf) Hret).
  - intros status dodetach v s' Hret.
    by apply (post_done _ _ _ _ (pid_exit_wf s me status dodetach HL Hwf) Hret).
Qed.

(** X22: [pid_bootstrap] on the zeroed table.  It panics when the lock,
    the memory for the bootstrap record or its wait channel cannot be
    had.  Otherwise it returns with the invariant established: the only
    record is that of [BOOTUP_PID], without parent and not exited, the
    count is 1, the cursor stands at [PID_MIN], and the lock is free. *)
Theorem bootstrap_sets_up_table km cv :
  limits_ok ->
  pid_bootstrap false km cv zeroed = Abort Panic /\
  (km = None \/ cv = false -> pid_bootstrap true km cv zeroed = Abort Panic) /\
  (forall blk, exists s',
     pid_bootstrap true (Some blk) true zeroed = Done tt s' /\ wf s' /\
     record_of s' BOOTUP_PID
     = Some (PidInfo BOOTUP_PID INVALID_PID false 47789 (detached blk)) /\
     (forall y, y <> BOOTUP_PID -> record_of s' y = None) /\
     nprocs s' = 1 /\ nextpid s' = PID_MIN /\ pidlock s' = 0%nat /\
     freed s' = []).
Proof.
  intros HL. pose proof (procs_pos HL) as HP.
  destruct (bootup_slot HL) as [Hb0 Hb1]. pose proof (bootup_valid HL) as Hbv.
  assert (Hnull : forall i : nat, (i < Z.to_nat PROCS_MAX)%nat ->
            replicate (Z.to_nat PROCS_MAX) (@None pidinfo) !! i = Some None).
  { intros i Hi. by apply lookup_replicate_2. }
  split; [done|split].
  - intros Hfail. unfold pid_bootstrap, bind. simpl.
    rewrite clear_loop_eq; [|done|intros i Hi; apply Hnull; lia]. simpl.
    unfold pidinfo_create, bind, KASSERT.
    destruct (Z.eqb_spec BOOTUP_PID INVALID_PID); [done|]. simpl.
    assert (Hnone : (match km with
                     | Some blk => if negb cv then ret None
                                   else ret (Some (set_exitstatus 47789
                                     (set_exited false (set_ppid INVALID_PID
                                        (set_pid BOOTUP_PID blk)))))
                     | None => ret None
                     end) zeroed = Done None zeroed).
    { destruct Hfail as [-> | ->]; [done|]. by destruct km. }
    rewrite Hnone. simpl.
    rewrite (tbl_write_at _ _ None) by (done || (apply Hnull; lia)). simpl.
    rewrite (tbl_read_at _ _ None); [done|done|]. simpl.
    apply list_lookup_insert_eq. rewrite length_replicate. lia.
  - intros blk. destruct (pid_bootstrap_wf blk HL) as [Hrun Hwf].
    exists (boot_state blk). split; [done|]. split; [done|].
    assert (Hboot : record_of (boot_state blk) BOOTUP_PID
                    = Some (created BOOTUP_PID INVALID_PID blk)).
    { unfold record_of, slot. simpl. rewrite Z.rem_small by done.
      rewrite list_lookup_insert_eq by (rewrite length_replicate; lia).
      simpl. by rewrite Z.eqb_refl. }
    split_and!; try done.
    intros y Hy. unfold record_of. simpl.
    destruct (decide (Z.to_nat (slot y) = Z.to_nat BOOTUP_PID)) as [Heq|Hne].
    + rewrite Heq, list_lookup_insert_eq by (rewrite length_replicate; lia).
      simpl. by destruct (Z.eqb_spec BOOTUP_PID y).
    + rewrite list_lookup_insert_ne by done.
      destruct (replicate _ _ !! _) as [e|] eqn:He; [|done].
      by apply lookup_replicate in He as [-> _].
Qed.

End JoinMore.

(** * The sample configuration at work *)

Section SampleProofs.
#[local] Existing Instance os161.

Lemma os161_ok : limits_ok.
Proof. split; cbn; lia. Qed.

Lemma st_boot_wf : wf st_boot.
Proof. apply wfb_wf. by vm_compute. Qed.

Lemma st_child_wf : wf st_child.
Proof. apply wfb_wf. by vm_compute. Qed.

Lemma st_zombie_wf : wf st_zombie.
Proof. apply wfb_wf. by vm_compute. Qed.

(** Thread 1 joins its exited child 2 and reads status 42. *)
Lemma join_exited_keeps_record_witness :
  exists s',
    pid_join 1 2 (Some 0) 0 st_zombie = Done (2, Some 42) s' /\
    pidinfo_tbl s' = pidinfo_tbl st_zombie /\ freed s' = freed st_zombie /\
    record_of s' 2 = Some (PidInfo 2 1 true 42 false) /\
    forall status2 flags2,
      pid_join 1 2 (Some status2) flags2 s' = Done (2, Some 42) s'.
Proof.
  apply (join_exited_keeps_record st_zombie 1 2 (PidInfo 2 1 true 42 false) 0 0).
  - exact os161_ok.
  - exact st_zombie_wf.
  - by vm_compute.
  - by vm_compute.
  - lia.
  - reflexivity.
Defined.

Lemma join_exited_null_status_witness :
  pid_join 1 2 None 0 st_zombie = Done (2, None) st_zombie.
Proof.
  apply (join_exited_null_status st_zombie 1 2 (PidInfo 2 1 true 42 false) 0).
  - exact os161_ok.
  - exact st_zombie_wf.
  - by vm_compute.
  - by vm_compute.
  - lia.
  - reflexivity.
Defined.

Lemma join_nohang_returns_zero_witness :
  pid_join 1 2 (Some 5) WNOHANG st_child = Done (0, Some 0) st_child.
Proof.
  apply (join_nohang_returns_zero st_child 1 2 (PidInfo 2 1 false 47789 false) 5).
  - exact os161_ok.
  - exact st_child_wf.
  - by vm_compute.
  - by vm_compute.
  - lia.
  - reflexivity.
Defined.

(** With a NULL status pointer the same call stores through NULL. *)
Example join_nohang_null_status_faults :
  pid_join 1 2 None WNOHANG st_child = Abort NullDeref.
Proof. by vm_compute. Qed.

(** Without WNOHANG the caller sleeps; woken after the child's exit it
    returns the child's pid and status. *)
Example join_waits_for_exit :
  exists k, pid_join 1 2 (Some 5) 0 st_child = Blocked st_child k /\
            k st_zombie = Done (2, Some 42) st_zombie.
Proof. eexists. split; by vm_compute. Qed.

(** The status cell held 5 before the call and holds 0 after it. *)
Lemma nohang_join_overwrites_status : ~ nohang_join_leaves_status.
Proof.
  intros H.
  destruct (H st_child 1 2 (PidInfo 2 1 false 47789 false) (Some 5))
    as [s' Hs']; [exact st_child_wf|by vm_compute|by vm_compute|lia|done|].
  vm_compute in Hs'. discriminate Hs'.
Qed.

(** Thread 1 detaches its running child 2; the second detach is turned
    away with EINVAL. *)
Lemma second_detach_fails_witness :
  exists r, record_of st_child 2 = Some r /\
    pid_detach 1 2 st_detached
    = Done (if pi_exited r then - ESRCH else - EINVAL) st_detached.
Proof.
  apply (second_detach_fails st_child 1 2 st_detached).
  - exact os161_ok.
  - exact st_child_wf.
  - by vm_compute.
Defined.

(** Thread 1 detaches its exited child 2, which reclaims the record; the
    second detach finds no record and returns ESRCH. *)
Lemma second_detach_of_zombie_is_esrch : ~ second_detach_is_einval.
Proof.
  intros H.
  destruct (H st_zombie 1 2 st_reaped)
    as [s2 Hs2]; [exact st_zombie_wf|by vm_compute|].
  vm_compute in Hs2. discriminate Hs2.
Qed.

(** pid 32768 lies above [PID_MAX]. *)
Lemma detach_above_range_is_esrch_witness :
  pid_detach 1 32768 st_child = Done (- ESRCH) st_child.
Proof.
  apply (detach_above_range_is_esrch st_child 1 32768).
  - exact os161_ok.
  - exact st_child_wf.
  - by vm_compute.
  - by vm_compute.
  - by vm_compute.
Defined.

Lemma st_family_wf : wf st_family.
Proof. apply wfb_wf. by vm_compute. Qed.

Lemma st_full_wf : wf st_full.
Proof. apply wfb_wf. by vm_compute. Qed.

(** Thread 1 allocates in the state that holds pids 1 and 2. *)
Lemma alloc_fresh_pid_or_eagain_witness :
  ((exists rv s', pid_alloc 1 (Some zero_block) true st_child = Done (EAGAIN, rv) s')
   <-> live_count st_child = PROCS_MAX) /\
  (live_count st_child = PROCS_MAX ->
   pid_alloc 1 (Some zero_block) true st_child = Done (EAGAIN, None) st_child) /\
  (forall pid s',
     pid_alloc 1 (Some zero_block) true st_child = Done (0, Some pid) s' ->
     PID_MIN <= pid <= PID_MAX /\
     (forall r, r ∈ live st_child -> pi_pid r <> pid) /\
     live_count s' = live_count st_child + 1 /\
     live_count s' <= PROCS_MAX /\
     nprocs s' = live_count s') /\
  (live_count st_child <> PROCS_MAX -> is_Some (Some zero_block) -> true = true ->
   exists pid s', pid_alloc 1 (Some zero_block) true st_child = Done (0, Some pid) s').
Proof.
  apply (alloc_fresh_pid_or_eagain st_child 1 (Some zero_block) true).
  - exact os161_ok.
  - exact st_child_wf.
  - by vm_compute.
Defined.

(** The call above hands out pid 3; on the full table the call returns
    EAGAIN. *)
Example alloc_third_pid :
  exists s', pid_alloc 1 (Some zero_block) true st_child = Done (0, Some 3) s'
             /\ live_count s' = 3.
Proof. eexists. split; by vm_compute. Qed.

Example alloc_on_full_table :
  live_count st_full = 128 /\
  pid_alloc 1 (Some zero_block) true st_full = Done (EAGAIN, None) st_full.
Proof. split; by vm_compute. Qed.

(** [kmalloc] hands out the block of a record that was detached and
    reclaimed: the new record is born with [detached] set. *)
Lemma alloc_record_fields_witness :
  record_of (after (pid_alloc 1 (Some stale_block) true) st_boot) 2
  = Some (PidInfo 2 1 false 47789 true).
Proof.
  apply (alloc_record_fields st_boot 1 stale_block true 2).
  - exact os161_ok.
  - exact st_boot_wf.
  - by vm_compute.
  - by vm_compute.
Defined.

(** Both answers of [target_parent] come back with the lock held twice. *)
Lemma target_parent_keeps_lock_witness :
  after (target_parent 2 1) st_child = with_lock 2 st_child.
Proof.
  apply (target_parent_keeps_lock st_child 2 1 1).
  by vm_compute.
Defined.

Example target_parent_other_path :
  target_parent 2 7 st_child = Done 0 (with_lock 2 st_child).
Proof. by vm_compute. Qed.

(** Thread 1 as the caller, in the state where its child 2 has exited. *)
Lemma reclaim_only_exited_orphans_witness :
  (forall theirpid, reclaims_ok st_zombie (pid_unalloc 1 theirpid st_zombie)) /\
  (forall childpid, reclaims_ok st_zombie (pid_detach 1 childpid st_zombie)) /\
  (forall status dodetach,
     reclaims_ok st_zombie (pid_exit 1 status dodetach st_zombie)).
Proof.
  apply (reclaim_only_exited_orphans st_zombie 1).
  - exact os161_ok.
  - by vm_compute.
Defined.

(** The three ways a record is reclaimed, run: thread 1 detaches its
    exited child; a detached child exits; thread 1 takes back a pid that
    never ran.  Each time the freed record has exited and has no parent. *)
Example detach_reclaims_zombie :
  pid_detach 1 2 st_zombie = Done 0 st_reaped /\
  freed st_reaped = [PidInfo 2 0 true 42 true] /\
  record_of st_reaped 2 = None.
Proof. repeat split; by vm_compute. Qed.

Example exit_reclaims_detached :
  freed (after (pid_exit 2 42 false) st_detached)
  = [PidInfo 2 0 true 42 true].
Proof. by vm_compute. Qed.

Example unalloc_reclaims :
  freed (after (pid_unalloc 1 2) st_child) = [PidInfo 2 0 true 57005 false].
Proof. by vm_compute. Qed.

(** When a child has exited already, the [pid_detach] in the loop of
    [pid_exit] reclaims its record, and the assignment to
    [this_pid->detached] that follows goes to the freed record. *)
Example exit_writes_to_reclaimed_child :
  record_of st_grandchild 3 = Some (PidInfo 3 2 true 7 false) /\
  pid_exit 2 0 true st_grandchild = Abort DanglingDeref.
Proof. split; by vm_compute. Qed.

(** [pid_alloc] does hand out [PID_MAX]. *)
Example alloc_hands_out_pid_max :
  nextpid st_cursor = 32640 /\
  pid_alloc 2 (Some zero_block) true st_cursor = Done (0, Some PID_MAX) st_family.
Proof. split; by vm_compute. Qed.

(** Thread 2 exits and asks for its children to be detached: child 3 is
    disowned, child 32767 keeps thread 2 as its parent. *)
Lemma exit_leaves_pid_max_record_witness :
  record_of st_orphans PID_MAX = Some (PidInfo 32767 2 false 47789 false).
Proof.
  apply (exit_leaves_pid_max_record st_family 2 0 true).
  - exact os161_ok.
  - by vm_compute.
  - by vm_compute.
  - by vm_compute.
  - by vm_compute.
Defined.

Example exit_disowns_lower_child :
  record_of st_family 3 = Some (PidInfo 3 2 false 47789 false) /\
  record_of st_orphans 3 = Some (PidInfo 3 0 false 47789 true).
Proof. split; by vm_compute. Qed.


(** ** The further properties, each at a sample state *)

Lemma st_cursor_wf : wf st_cursor.
Proof. apply wfb_wf. by vm_compute. Qed.


(** The same call when [kmalloc] has no memory. *)
Lemma alloc_enomem_keeps_table_witness :
  exists s', pid_alloc 1 None true st_child = Done (ENOMEM, None) s' /\
             pidinfo_tbl s' = pidinfo_tbl st_child /\
             nprocs s' = nprocs st_child /\
             PID_MIN <= nextpid s' <= PID_MAX /\
             pidinfo_tbl st_child !! Z.to_nat (slot (nextpid s')) = Some None.
Proof.
  apply (alloc_enomem_keeps_table st_child 1 None true).
  - exact os161_ok.
  - exact st_child_wf.
  - by vm_compute.
  - by vm_compute.
  - by left.
Defined.

(** From the cursor 32640 the first free slot is that of pid 32767, and
    the cursor wraps to [PID_MIN]. *)
Lemma alloc_takes_first_free_from_cursor_witness :
  exists k : nat,
    32767 = advance k (nextpid st_cursor) /\
    (forall j : nat, (j < k)%nat ->
       exists r, pidinfo_tbl st_cursor
                   !! Z.to_nat (slot (advance j (nextpid st_cursor)))
                 = Some (Some r)) /\
    pidinfo_tbl st_cursor !! Z.to_nat (slot 32767) = Some None /\
    nextpid st_family = (if 32767 =? PID_MAX then PID_MIN else 32767 + 1).
Proof.
  apply (alloc_takes_first_free_from_cursor
           st_cursor 2 (Some zero_block) true 32767 st_family).
  - exact os161_ok.
  - exact st_cursor_wf.
  - by vm_compute.
  - by vm_compute.
Defined.

Lemma alloc_disturbs_no_record_witness :
  (forall y, y <> 3 -> record_of st_sibling y = record_of st_child y) /\
  (forall r, r ∈ live st_child -> slot (pi_pid r) <> slot 3).
Proof.
  apply (alloc_disturbs_no_record st_child 1 (Some zero_block) true 3 st_sibling).
  - exact os161_ok.
  - exact st_child_wf.
  - by vm_compute.
  - by vm_compute.
Defined.

Lemma alloc_unalloc_round_trip_witness :
  exists s2, pid_unalloc 1 3 st_sibling = Done tt s2 /\
             pidinfo_tbl s2 = pidinfo_tbl st_child /\
             nprocs s2 = nprocs st_child /\
             pidlock s2 = pidlock st_child /\
             nextpid s2 = nextpid st_sibling /\
             length (freed s2) = S (length (freed st_child)).
Proof.
  apply (alloc_unalloc_round_trip st_child 1 (Some zero_block) true 3 st_sibling).
  - exact os161_ok.
  - exact st_child_wf.
  - by vm_compute.
  - by vm_compute.
Defined.

(** Thread 1 and its child 2. *)
Lemma unalloc_contract_witness :
  (~ PID_MIN <= 2 <= PID_MAX -> pid_unalloc 1 2 st_child = Abort (KAssert 291)) /\
  (PID_MIN <= 2 <= PID_MAX -> record_of st_child 2 = None ->
   pid_unalloc 1 2 st_child = Abort (KAssert 296)) /\
  (forall r, PID_MIN <= 2 <= PID_MAX -> record_of st_child 2 = Some r ->
     (pi_exited r = true -> pid_unalloc 1 2 st_child = Abort (KAssert 297)) /\
     (pi_exited r = false -> pi_ppid r <> 1 ->
      pid_unalloc 1 2 st_child = Abort (KAssert 298)) /\
     (pi_exited r = false -> pi_ppid r = 1 ->
      exists s', pid_unalloc 1 2 st_child = Done tt s' /\
                 record_of s' 2 = None /\
                 (forall y, y <> 2 -> record_of s' y = record_of st_child y) /\
                 live_count s' = live_count st_child - 1 /\ wf s' /\
                 pidlock s' = pidlock st_child /\
                 freed s' = PidInfo 2 INVALID_PID true 57005 (detached r)
                            :: freed st_child)).
Proof.
  apply (unalloc_contract st_child 1 2).
  - exact os161_ok.
  - exact st_child_wf.
Defined.

(** The assertions of [pid_unalloc], run: a pid below the range, a pid
    without record, a child that has exited, and somebody else's child. *)
Example unalloc_assertions :
  pid_unalloc 1 1 st_child = Abort (KAssert 291) /\
  pid_unalloc 1 5 st_child = Abort (KAssert 296) /\
  pid_unalloc 1 2 st_zombie = Abort (KAssert 297) /\
  pid_unalloc 7 2 st_child = Abort (KAssert 298).
Proof. repeat split; by vm_compute. Qed.

Lemma detach_refusals_witness :
  (5 <> INVALID_PID -> 5 <> BOOTUP_PID -> PID_MIN <= 5 ->
   (record_of st_child 5 = None -> pid_detach 1 5 st_child = Done (- ESRCH) st_child) /\
   (forall r, record_of st_child 5 = Some r ->
      pi_ppid r = INVALID_PID \/ pi_ppid r <> 1 ->
      pid_detach 1 5 st_child = Done (- EINVAL) st_child)) /\
  (forall v s', pid_detach 1 5 st_child = Done v s' -> v <> 0 -> s' = st_child).
Proof.
  apply (detach_refusals st_child 1 5).
  - exact os161_ok.
  - reflexivity.
Defined.

Lemma detach_running_child_witness :
  exists s', pid_detach 1 2 st_child = Done 0 s' /\
             record_of s' 2 = Some (PidInfo 2 INVALID_PID false 47789 true) /\
             (forall y, y <> 2 -> record_of s' y = record_of st_child y) /\
             nprocs s' = nprocs st_child /\ nextpid s' = nextpid st_child /\
             pidlock s' = pidlock st_child /\ freed s' = freed st_child /\
             wf s'.
Proof.
  apply (detach_running_child st_child 1 2 (PidInfo 2 1 false 47789 false)).
  - exact os161_ok.
  - exact st_child_wf.
  - by vm_compute.
  - reflexivity.
  - by vm_compute.
  - reflexivity.
Defined.

Lemma detach_exited_child_witness :
  exists s', pid_detach 1 2 st_zombie = Done 0 s' /\
             record_of s' 2 = None /\
             pidinfo_tbl s' !! Z.to_nat (slot 2) = Some None /\
             (forall y, y <> 2 -> record_of s' y = record_of st_zombie y) /\
             live_count s' = live_count st_zombie - 1 /\
             pidlock s' = pidlock st_zombie /\
             freed s' = PidInfo 2 INVALID_PID true 42 true :: freed st_zombie /\
             wf s'.
Proof.
  apply (detach_exited_child st_zombie 1 2 (PidInfo 2 1 true 42 false)).
  - exact os161_ok.
  - exact st_zombie_wf.
  - by vm_compute.
  - reflexivity.
  - by vm_compute.
  - reflexivity.
Defined.

(** Thread 2 exits with status 42. *)
Lemma exit_marks_or_reclaims_witness :
  (record_of st_child 2 = None ->
   forall dodetach, pid_exit 2 42 dodetach st_child = Abort (KAssert 384)) /\
  (forall r, record_of st_child 2 = Some r -> detached r = false ->
     exists s', pid_exit 2 42 false st_child = Done tt s' /\
       record_of s' 2 = Some (PidInfo 2 (pi_ppid r) true 42 false) /\
       (forall y, y <> 2 -> record_of s' y = record_of st_child y) /\
       nprocs s' = nprocs st_child /\ pidlock s' = pidlock st_child /\
       freed s' = freed st_child /\ wf s') /\
  (forall r, record_of st_child 2 = Some r -> detached r = true ->
     exists s', pid_exit 2 42 false st_child = Done tt s' /\
       record_of s' 2 = None /\
       (forall y, y <> 2 -> record_of s' y = record_of st_child y) /\
       live_count s' = live_count st_child - 1 /\
       pidlock s' = pidlock st_child /\
       freed s' = PidInfo 2 INVALID_PID true 42 true :: freed st_child /\
       wf s').
Proof.
  apply (exit_marks_or_reclaims st_child 2 42).
  - exact os161_ok.
  - exact st_child_wf.
  - lia.
  - by vm_compute.
Defined.

Lemma exit_then_join_witness :
  exists s1, pid_exit 2 42 false st_child = Done tt s1 /\
    forall v flags,
      pid_join 1 2 (Some v) flags s1 = Done (2, Some 42) s1.
Proof.
  apply (exit_then_join st_child 1 2 (PidInfo 2 1 false 47789 false) 42).
  - exact os161_ok.
  - exact st_child_wf.
  - by vm_compute.
  - reflexivity.
  - by vm_compute.
  - lia.
  - reflexivity.
Defined.

Lemma exit_detach_commute_witness :
  exists sa sb s',
    pid_exit 2 42 false st_child = Done tt sa /\
    pid_detach 1 2 sa = Done 0 s' /\
    pid_detach 1 2 st_child = Done 0 sb /\
    pid_exit 2 42 false sb = Done tt s' /\
    record_of s' 2 = None /\
    freed s' = PidInfo 2 INVALID_PID true 42 true :: freed st_child.
Proof.
  apply (exit_detach_commute st_child 1 2 (PidInfo 2 1 false 47789 false) 42).
  - exact os161_ok.
  - exact st_child_wf.
  - by vm_compute.
  - reflexivity.
  - by vm_compute.
  - reflexivity.
  - reflexivity.
Defined.


Lemma exit_leaves_strangers_alone_witness :
  record_of st_orphans 1 = Some (PidInfo 1 0 false 47789 false).
Proof.
  apply (exit_leaves_strangers_alone
           st_family 2 0 true st_orphans (PidInfo 1 0 false 47789 false)).
  - exact os161_ok.
  - reflexivity.
  - by vm_compute.
  - by vm_compute.
  - by vm_compute.
  - left. by vm_compute.
Defined.

Lemma join_refusals_witness :
  (2 = INVALID_PID \/ 2 = BOOTUP_PID \/ 2 < PID_MIN \/ PID_MAX < 2 ->
   pid_join 2 2 (Some 5) 0 st_detached = Done (- EINVAL, Some 5) st_detached) /\
  (2 <> INVALID_PID -> 2 <> BOOTUP_PID -> PID_MIN <= 2 <= PID_MAX ->
   (record_of st_detached 2 = None ->
    pid_join 2 2 (Some 5) 0 st_detached = Done (- ESRCH, Some 5) st_detached) /\
   (forall r, record_of st_detached 2 = Some r ->
      (pi_ppid r = INVALID_PID ->
       pid_join 2 2 (Some 5) 0 st_detached = Done (- EINVAL, Some 5) st_detached) /\
      (pi_ppid r <> INVALID_PID -> 2 = 2 ->
       pid_join 2 2 (Some 5) 0 st_detached = Done (- EDEADLK, Some 5) st_detached))).
Proof.
  apply (join_refusals st_detached 2 2 (Some 5) 0).
  - exact os161_ok.
  - reflexivity.
Defined.

(** The refusals, run: the bootstrap pid, a pid without record, the
    caller itself, and the caller itself once it has been detached. *)
Example join_refusals_run :
  pid_join 2 1 (Some 5) 0 st_child = Done (- EINVAL, Some 5) st_child /\
  pid_join 1 5 (Some 5) 0 st_child = Done (- ESRCH, Some 5) st_child /\
  pid_join 2 2 (Some 5) 0 st_child = Done (- EDEADLK, Some 5) st_child /\
  pid_join 2 2 (Some 5) 0 st_detached = Done (- EINVAL, Some 5) st_detached.
Proof. repeat split; by vm_compute. Qed.


Lemma detach_then_join_is_refused_witness :
  exists e, pid_join 1 2 (Some 5) 0 st_detached = Done (e, Some 5) st_detached /\
            (e = - EINVAL \/ e = - ESRCH).
Proof.
  apply (detach_then_join_is_refused st_child 1 2 st_detached 1 (Some 5) 0).
  - exact os161_ok.
  - reflexivity.
  - by vm_compute.
Defined.


(** A pid without record sends the helper through NULL. *)
Example target_parent_without_record :
  target_parent 5 1 st_child = Abort NullDeref.
Proof. by vm_compute. Qed.

Lemma table_operations_release_lock_witness :
  (forall km cv v s', pid_alloc 1 km cv st_child = Done v s' ->
                      pidlock s' = pidlock st_child) /\
  (forall x v s', pid_unalloc 1 x st_child = Done v s' ->
                  pidlock s' = pidlock st_child) /\
  (forall x v s', pid_detach 1 x st_child = Done v s' ->
                  pidlock s' = pidlock st_child) /\
  (forall status dodetach v s',
     pid_exit 1 status dodetach st_child = Done v s' ->
     pidlock s' = pidlock st_child).
Proof.
  apply (table_operations_release_lock st_child 1).
  - exact os161_ok.
  - exact st_child_wf.
Defined.

Lemma table_operations_keep_invariant_witness :
  (forall x v s', pid_unalloc 1 x st_child = Done v s' -> wf s') /\
  (forall x v s', pid_detach 1 x st_child = Done v s' -> wf s') /\
  (forall status dodetach v s',
     pid_exit 1 status dodetach st_child = Done v s' -> wf s').
Proof.
  apply (table_operations_keep_invariant st_child 1).
  - exact os161_ok.
  - exact st_child_wf.
Defined.

Lemma bootstrap_sets_up_table_witness :
  pid_bootstrap false (Some zero_block) true zeroed = Abort Panic /\
  (Some zero_block = None \/ true = false ->
   pid_bootstrap true (Some zero_block) true zeroed = Abort Panic) /\
  (forall blk, exists s',
     pid_bootstrap true (Some blk) true zeroed = Done tt s' /\ wf s' /\
     record_of s' BOOTUP_PID
     = Some (PidInfo BOOTUP_PID INVALID_PID false 47789 (detached blk)) /\
     (forall y, y <> BOOTUP_PID -> record_of s' y = None) /\
     nprocs s' = 1 /\ nextpid s' = PID_MIN /\ pidlock s' = 0%nat /\
     freed s' = []).
Proof.
  apply (bootstrap_sets_up_table (Some zero_block) true).
  exact os161_ok.
Defined.

(** Without memory for the bootstrap record the kernel panics. *)
Example bootstrap_without_memory :
  pid_bootstrap true None true zeroed = Abort Panic.
Proof. by vm_compute. Qed.

End SampleProofs.
